(** * bnrun: script resolution and plan construction

    A shallow embedding of the planning engine of [bnrun]
    (the [index.ts] listing that carries the [skip] option and the
    run-once ledger for both the pre and the post phase).

    JavaScript strings are modelled as [string]; every operation used by
    the program ([===], [startsWith], [substring], [split], [replace],
    [replaceAll], the regular expression [/\$\{(\w+)\}/g]) works code unit
    by code unit, so one [ascii] stands for one code unit.

    The glob matcher [minimatch] is an imported package: it is a variable
    of the engine section.  Unbounded recursion through self-invocation is
    modelled with fuel; [OutOfFuel] stands for a call chain that has not
    returned within the given depth. *)

From Stdlib Require Import String Ascii List Bool Arith NArith Lia DecimalString.
Set Warnings "-register-all".
Import ListNotations.
Open Scope string_scope.

(* ================================================================== *)
(** ** JavaScript string primitives *)
(* ================================================================== *)

Module JsString.

(** [s.substring(n)] for [n] within bounds: the string without its first
    [n] code units. *)
Fixpoint drop (n : nat) (s : string) : string :=
  match n, s with
  | 0, _ => s
  | S _, EmptyString => EmptyString
  | S k, String _ s' => drop k s'
  end.

(** [s.startsWith(p)] *)
Definition startsWith (s p : string) : bool := String.prefix p s.

(** [s.split(sep)] for a one-character separator. *)
Fixpoint split (sep : ascii) (s : string) : list string :=
  match s with
  | EmptyString => [EmptyString]
  | String c s' =>
      if Ascii.eqb c sep then EmptyString :: split sep s'
      else match split sep s' with
           | [] => [String c EmptyString]
           | h :: t => String c h :: t
           end
  end.

(** JavaScript truthiness of a [string | undefined] value. *)
Definition truthy (v : option string) : bool :=
  match v with
  | Some EmptyString => false
  | Some _ => true
  | None => false
  end.

(** ECMAScript [GetSubstitution] for a string search value: there are no
    captures, so only [$$], [$&], [$`] and [$'] are replacement
    patterns; every other code unit (also [$] before a digit or [<]) is
    copied. *)
Fixpoint getSubstitution (matched before after template : string) : string :=
  match template with
  | EmptyString => EmptyString
  | String a rest =>
      match rest with
      | String c t =>
          if Ascii.eqb a "$" then
            if Ascii.eqb c "$" then String "$" (getSubstitution matched before after t)
            else if Ascii.eqb c "&" then matched ++ getSubstitution matched before after t
            else if Ascii.eqb c "`" then before ++ getSubstitution matched before after t
            else if Ascii.eqb c "'" then after ++ getSubstitution matched before after t
            else String a (getSubstitution matched before after rest)
          else String a (getSubstitution matched before after rest)
      | EmptyString => String a EmptyString
      end
  end.

(** [s.replace(pat, rep)] with a string [pat]: the first occurrence only;
    [before] is the part of the subject already passed. *)
Fixpoint replaceFrom (pat rep before s : string) : string :=
  if String.prefix pat s then
    getSubstitution pat before (drop (String.length pat) s) rep
      ++ drop (String.length pat) s
  else
    match s with
    | EmptyString => EmptyString
    | String c s' => String c (replaceFrom pat rep (before ++ String c EmptyString) s')
    end.

Definition replace (s pat rep : string) : string :=
  replaceFrom pat rep EmptyString s.

(** [s.replaceAll(pat, rep)] with a string [pat]: every occurrence, found
    left to right without overlap in the subject; [skip] counts the code
    units of the current occurrence still to be passed over. *)
Fixpoint replaceAllFrom (pat rep : string) (skip : nat) (before s : string) : string :=
  match skip with
  | S k =>
      match s with
      | EmptyString => EmptyString
      | String c s' => replaceAllFrom pat rep k (before ++ String c EmptyString) s'
      end
  | 0 =>
      if String.prefix pat s then
        getSubstitution pat before (drop (String.length pat) s) rep ++
        match s with
        | EmptyString => EmptyString
        | String c s' =>
            let tail :=
              replaceAllFrom pat rep (String.length pat - 1)
                             (before ++ String c EmptyString) s' in
            match pat with
            | EmptyString => String c tail
            | _ => tail
            end
        end
      else
        match s with
        | EmptyString => EmptyString
        | String c s' =>
            String c (replaceAllFrom pat rep 0 (before ++ String c EmptyString) s')
        end
  end.

Definition replaceAll (s pat rep : string) : string :=
  replaceAllFrom pat rep 0 EmptyString s.

(** The character class [\w]. *)
Definition isWordChar (c : ascii) : bool :=
  let n := nat_of_ascii c in
  (Nat.leb 97 n && Nat.leb n 122) || (Nat.leb 65 n && Nat.leb n 90)
  || (Nat.leb 48 n && Nat.leb n 57) || Nat.eqb n 95.

(** The longest run of word characters at the head of [s]. *)
Fixpoint takeWord (s : string) : string :=
  match s with
  | String c s' => if isWordChar c then String c (takeWord s') else EmptyString
  | EmptyString => EmptyString
  end.

(** One attempt of [/\$\{(\w+)\}/] at the head of [s]: the matched text. *)
Definition matchPlaceholderAt (s : string) : option string :=
  match s with
  | String a (String b r) =>
      if Ascii.eqb a "$" && Ascii.eqb b "{" then
        let w := takeWord r in
        match w with
        | EmptyString => None
        | _ => if String.prefix "}" (drop (String.length w) r)
               then Some ("${" ++ w ++ "}") else None
        end
      else None
  | _ => None
  end.

(** The successive results of [regex.exec(s)] for the global expression
    [/\$\{(\w+)\}/g] until it returns [null]: all matches, left to
    right, without overlap. *)
Fixpoint execAllFrom (skip : nat) (s : string) : list string :=
  match s with
  | EmptyString => []
  | String _ s' =>
      match skip with
      | S k => execAllFrom k s'
      | 0 =>
          match matchPlaceholderAt s with
          | Some p => p :: execAllFrom (String.length p - 1) s'
          | None => execAllFrom 0 s'
          end
      end
  end.

Definition execAll (s : string) : list string := execAllFrom 0 s.

(** ['  '.repeat(level)] and friends. *)
Fixpoint repeat (s : string) (n : nat) : string :=
  match n with
  | 0 => EmptyString
  | S k => s ++ repeat s k
  end.

End JsString.

Import JsString.


(* ================================================================== *)
(** ** Data model *)
(* ================================================================== *)

(** [type Option = 'run-once'] *)
Inductive Option : Type := run_once.

(** [type Options = { [key in keyof ScriptPhases]: Option } & { options?: string[] }] *)
Record Options : Type := mkOptions {
  opt_pre : option Option;
  opt_command : option Option;
  opt_post : option Option;
  opt_options : option (list string)
}.

(** [type Script = { name: string; config?: Options } & ScriptPhases] *)
Record Script : Type := mkScript {
  name : string;
  config : option Options;
  pre : option (list string);
  command : list string;
  post : option (list string)
}.

Record Substitution : Type := mkSub { sub_param : string; sub_value : string }.

Record ProcessedScript : Type := mkProcessed {
  script : Script;
  substitutions : list Substitution
}.

Inductive Phase : Type := PRE | COMMAND | POST.

Record PlanStep : Type := mkStep {
  step_script : string;
  step_phase : Phase;
  step_command : string;
  step_skip : bool
}.

(** [type CLIArgs]; [positional] is the field [_]. *)
Record CLIArgs : Type := mkArgs {
  scriptDir : string;
  verbose : bool;
  dry : bool;
  skip : option (list string);
  positional : list string
}.

(** Thrown values. *)
Inductive Exn : Type :=
| JsError (message : string)
| JsTypeError (message : string).

(** Outcome of a call: a value, a thrown exception, or no return within
    the recursion depth allowed. *)
Inductive Res (A : Type) : Type :=
| Ok (a : A)
| Err (e : Exn)
| OutOfFuel.
Arguments Ok {A} a.
Arguments Err {A} e.
Arguments OutOfFuel {A}.

(** The module-level mutable state: the run-once ledger [scriptsRan] and
    the lines written by [console.log]. *)
Record State : Type := mkState {
  scriptsRan : list string;
  console : list string
}.

Definition initialState : State := mkState [] [].

(** Computations that read and write the module state and may throw. *)
Definition M (A : Type) : Type := State -> Res (A * State).

Definition ret {A} (a : A) : M A := fun st => Ok (a, st).

Definition bind {A B} (m : M A) (k : A -> M B) : M B :=
  fun st =>
    match m st with
    | Ok (a, st') => k a st'
    | Err e => Err e
    | OutOfFuel => OutOfFuel
    end.

Definition lift {A} (r : Res A) : M A :=
  fun st =>
    match r with
    | Ok a => Ok (a, st)
    | Err e => Err e
    | OutOfFuel => OutOfFuel
    end.

Definition gets {A} (f : State -> A) : M A := fun st => Ok (f st, st).

Definition modify (f : State -> State) : M unit := fun st => Ok (tt, f st).

Declare Scope m_scope.
Delimit Scope m_scope with M.
Notation "x <- m ;; k" := (bind m (fun x => k))
  (at level 61, m at next level, right associativity) : m_scope.
Notation "m ;; k" := (bind m (fun _ => k))
  (at level 61, right associativity) : m_scope.

(** [xs.map(f)] for an [f] with effects: left to right. *)
Fixpoint mapM {A B} (f : A -> M B) (xs : list A) : M (list B) :=
  match xs with
  | [] => ret []
  | x :: xs' => (y <- f x ;; ys <- mapM f xs' ;; ret (y :: ys))%M
  end.

(** [a || []] for an optional array. *)
Definition orEmpty {A} (a : option (list A)) : list A :=
  match a with Some l => l | None => [] end.

(** [a && a.length > 0] for an optional array. *)
Definition nonEmpty {A} (a : option (list A)) : bool :=
  match a with Some (_ :: _) => true | _ => false end.

(** [xs.includes(x)] on strings. *)
Definition includes (xs : list string) (x : string) : bool :=
  existsb (String.eqb x) xs.

(* ================================================================== *)
(** ** Loading script definitions *)
(* ================================================================== *)

Module Loader.

(** What [JSON.parse] returns.  The properties of an object are listed
    in the object's own enumeration order. *)
Inductive JSON : Type :=
| JNull
| JBool (b : bool)
| JNumber (literal : string)
| JString (s : string)
| JArray (items : list JSON)
| JObject (props : list (string * JSON)).

Definition typeof (v : JSON) : string :=
  match v with
  | JNull => "object"
  | JBool _ => "boolean"
  | JNumber _ => "number"
  | JString _ => "string"
  | JArray _ => "object"
  | JObject _ => "object"
  end.

(** [function isScriptsFile(obj: unknown): obj is ScriptFile] *)
Definition isScriptsFile (obj : JSON) : bool :=
  String.eqb (typeof obj) "object".

(** [loadScriptFile], from the parsed data on: reading the file and
    [JSON.parse] belong to the host. *)
Definition loadScriptFile (parsed : JSON) : Res JSON :=
  let scripts := parsed in
  if negb (isScriptsFile scripts) then Err (JsError "Invalid script file")
  else Ok scripts.

(** An object as a property list. *)
Definition Obj : Type := list (string * JSON).

Fixpoint indexed (i : nat) (items : list JSON) : Obj :=
  match items with
  | [] => []
  | x :: xs => (NilEmpty.string_of_uint (Nat.to_uint i), x) :: indexed (S i) xs
  end.

Fixpoint chars (s : string) : list JSON :=
  match s with
  | EmptyString => []
  | String c s' => JString (String c EmptyString) :: chars s'
  end.

(** The own enumerable properties of a value. *)
Definition ownProps (v : JSON) : Obj :=
  match v with
  | JObject props => props
  | JArray items => indexed 0 items
  | JString s => indexed 0 (chars s)
  | _ => []
  end.

(** [Object.keys(v)] for a value of type object. *)
Definition objectKeys (v : JSON) : Res (list string) :=
  match v with
  | JNull => Err (JsTypeError "Cannot convert undefined or null to object")
  | _ => Ok (map fst (ownProps v))
  end.

(** [v[key]]; [None] is [undefined]. *)
Fixpoint getProp (props : Obj) (key : string) : option JSON :=
  match props with
  | [] => None
  | (k, x) :: rest => if String.eqb k key then Some x else getProp rest key
  end.

(** Defining one property on an object under construction. *)
Fixpoint setProp (props : Obj) (key : string) (x : JSON) : Obj :=
  match props with
  | [] => [(key, x)]
  | (k, y) :: rest =>
      if String.eqb k key then (k, x) :: rest else (k, y) :: setProp rest key x
  end.

(** [{ ...a, ...b }], the properties in the order they are defined. *)
Definition spread (a : Obj) (b : Obj) : Obj :=
  fold_left (fun acc kv => setProp acc (fst kv) (snd kv)) b a.

(** The entries one file contributes:
    [Object.keys(script).forEach(key =>
       scripts.push({ ...{ name: key }, ...script[key] }))]. *)
Definition fileEntries (script : JSON) (keys : list string) : list Obj :=
  map (fun key =>
         spread [("name", JString key)]
                (match getProp (ownProps script) key with
                 | Some v => ownProps v
                 | None => []
                 end))
      keys.

(** [loadScripts], over the parsed contents of the files of the
    directory, in directory order. *)
Fixpoint loadScripts (files : list JSON) : Res (list Obj) :=
  match files with
  | [] => Ok []
  | file :: rest =>
      match loadScriptFile file with
      | Ok script =>
          match objectKeys script with
          | Ok keys =>
              match loadScripts rest with
              | Ok more => Ok (List.app (fileEntries script keys) more)
              | Err e => Err e
              | OutOfFuel => OutOfFuel
              end
          | Err e => Err e
          | OutOfFuel => OutOfFuel
          end
      | Err e => Err e
      | OutOfFuel => OutOfFuel
      end
  end.

End Loader.

(* ================================================================== *)
(** ** Resolver *)
(* ================================================================== *)

(** The body of the [for (const script of scripts)] loop of
    [findMatchingScript]: the working copy [scriptName] and the
    [substitutions] after the [while] over the placeholders of the name. *)
Definition substituteName (script : Script) (param : string)
  : string * list Substitution :=
  fold_left
    (fun (acc : string * list Substitution) (placeholder : string) =>
       let '(scriptName, substitutions) := acc in
       let value := nth_error (split ":" param) 1 in
       match value with
       | Some v =>
           if truthy value then
             (replace scriptName placeholder v,
              (substitutions ++ [mkSub placeholder v])%list)
           else acc
       | None => acc
       end)
    (execAll (name script))
    (name script, []).

(** One turn of the loop: the result returned when the substituted name
    equals the requested one. *)
Definition matchPattern (script : Script) (param : string)
  : option ProcessedScript :=
  let '(scriptName, substitutions) := substituteName script param in
  if String.eqb scriptName param then Some (mkProcessed script substitutions)
  else None.

Fixpoint findByPattern (scripts : list Script) (param : string)
  : option ProcessedScript :=
  match scripts with
  | [] => None
  | script :: rest =>
      match matchPattern script param with
      | Some found => Some found
      | None => findByPattern rest param
      end
  end.

Definition findMatchingScript (scripts : list Script) (param : string)
  : Res ProcessedScript :=
  match find (fun s => String.eqb (name s) param) scripts with
  | Some completeMatch => Ok (mkProcessed completeMatch [])
  | None =>
      match findByPattern scripts param with
      | Some found => Ok found
      | None => Err (JsError ("No script found for " ++ param))
      end
  end.

(** *** Reference shapes for loading *)

(** The parsed contents [loadScripts] gets through: data of type object
    other than [null]. *)
Definition loadable (file : Loader.JSON) : Prop :=
  Loader.typeof file = "object" /\ file <> Loader.JNull.

(** What the offending file makes [loadScripts] throw. *)
Definition loadError (file : Loader.JSON) : Exn :=
  match file with
  | Loader.JNull => JsTypeError "Cannot convert undefined or null to object"
  | _ => JsError "Invalid script file"
  end.

(** *** Reference shapes for pattern resolution *)

(** The code units of a string, none of which is [c]. *)
Definition free_of (c : ascii) (s : string) : Prop :=
  ~ In c (list_ascii_of_string s).

(** The template name with [v] written in the place of every placeholder
    token, token by token. *)
Fixpoint instantiateFrom (v : string) (skip : nat) (s : string) : string :=
  match s with
  | EmptyString => EmptyString
  | String c s' =>
      match skip with
      | S k => instantiateFrom v k s'
      | 0 =>
          match matchPlaceholderAt s with
          | Some p => v ++ instantiateFrom v (String.length p - 1) s'
          | None => String c (instantiateFrom v 0 s')
          end
      end
  end.

Definition instantiate (v s : string) : string := instantiateFrom v 0 s.

(** Every dollar sign of the string opens a placeholder token. *)
Fixpoint dollarsOpenFrom (skip : nat) (s : string) : bool :=
  match s with
  | EmptyString => true
  | String c s' =>
      match skip with
      | S k => dollarsOpenFrom k s'
      | 0 =>
          match matchPlaceholderAt s with
          | Some p => dollarsOpenFrom (String.length p - 1) s'
          | None => negb (Ascii.eqb c "$") && dollarsOpenFrom 0 s'
          end
      end
  end.

Definition dollarsOpen (s : string) : bool := dollarsOpenFrom 0 s.

(** The condition of the specification for a requested name to match a
    template: the two names are equal, or the template name with the value
    of the request in the place of every placeholder is the requested
    name. *)
Definition matchesTemplate (s : Script) (param : string) : Prop :=
  name s = param \/
  exists v, nth_error (split ":" param) 1 = Some v /\ instantiate v (name s) = param.

(* ================================================================== *)
(** ** Registries used in the examples *)
(* ================================================================== *)

Module Examples.

Definition build : Script :=
  mkScript "build" None None ["echo A"] None.

Definition deploy : Script :=
  mkScript "deploy:${env}" None (Some ["echo setup"]) ["echo deploy ${env}"] None.

Definition all : Script :=
  mkScript "all" None None ["bnrun build"; "bnrun deploy:prod"] None.

Definition registry : list Script := [build; deploy].

Definition registryAll : list Script := [build; deploy; all].

Definition args : CLIArgs := mkArgs "./.run" false true None ["all"].

(** A template with a run-once pre phase and a script that invokes it
    twice. *)
Definition buildProject : Script :=
  mkScript "build:${project}"
           (Some (mkOptions (Some run_once) None None None))
           (Some ["echo lint"]) ["echo build ${project}"] None.

Definition buildAll : Script :=
  mkScript "build-all" None None ["bnrun build:a"; "bnrun build:b"] None.

Definition registryOnce : list Script := [buildProject; buildAll].

(** A parameterized template listed before a template whose exact name it
    also matches. *)
Definition deployProd : Script :=
  mkScript "deploy:prod" None None ["echo exact"] None.

Definition registryShadow : list Script := [deploy; deployProd].

(** A template whose command starts with its placeholder. *)
Definition runTool : Script :=
  mkScript "run:${tool}" None None ["${tool} build"] None.

Definition registryTool : list Script := [build; runTool].

(** A template with one placeholder after the colon. *)
Definition echoParam : Script :=
  mkScript "a:${x}" None None ["echo ${x}"] None.

Definition registryParam : list Script := [echoParam].

(** A script whose second command invokes a script that does not exist. *)
Definition release : Script :=
  mkScript "release" None None ["bnrun build"; "bnrun publish"] None.

Definition registryRelease : list Script := [build; release].

(** A script that invokes itself. *)
Definition loop : Script :=
  mkScript "loop" None None ["echo once"; "bnrun loop"] None.

Definition registryLoop : list Script := [build; loop].

(** A run-once template whose command invokes the script its parameter
    names, and a script that invokes the template again. *)
Definition task : Script :=
  mkScript "t:${p}"
           (Some (mkOptions (Some run_once) None None None))
           (Some ["echo pre"]) ["bnrun ${p}"] None.

Definition inner : Script :=
  mkScript "inner" None None ["bnrun t:leaf"] None.

Definition leaf : Script :=
  mkScript "leaf" None None ["echo leaf"] None.

Definition registryNested : list Script := [task; inner; leaf].

(** A template whose name holds a dollar sign and a backtick before its
    placeholder. *)
Definition backtick : Script :=
  mkScript "k:$`:${x}" None None ["echo ${x}"] None.

Definition registryBacktick : list Script := [backtick].

(** A template whose name holds a placeholder and no colon. *)
Definition bare : Script :=
  mkScript "x${a}" None None ["echo x"] None.

Definition registryBare : list Script := [bare].

(** The command line with [verbose] on. *)
Definition argsVerbose : CLIArgs := mkArgs "./.run" true false None ["all"].

(** A matcher that knows no wildcard: a pattern matches itself. *)
Definition literalMatch (item pattern : string) : bool := String.eqb item pattern.

End Examples.

(* ================================================================== *)
(** ** Plan builder and skip filter *)
(* ================================================================== *)

Section Engine.

(** [const scripts = loadScripts(argv.scriptDir)], the parsed command
    line, and the imported glob matcher. *)
Variable scripts : list Script.
Variable argv : CLIArgs.
Variable minimatch : string -> string -> bool.

(** [function log(str, level)] *)
Definition log (str : string) (level : nat) : M unit :=
  if negb (verbose argv) then ret tt
  else modify (fun st =>
         mkState (scriptsRan st)
                 (console st ++ [(JsString.repeat "  " level ++ str)%string])%list).

(** [function shouldExecutePre(script)], reading the ledger [ran]. *)
Definition shouldExecutePre (ran : list string) (script : Script) : bool :=
  if nonEmpty (pre script) then
    match config script with
    | Some cfg =>
        match opt_pre cfg with
        | Some run_once => negb (includes ran (name script))
        | None => true
        end
    | None => true
    end
  else false.

(** [function shouldExecutePost(script)], reading the ledger [ran]. *)
Definition shouldExecutePost (ran : list string) (script : Script) : bool :=
  if nonEmpty (post script) then
    match config script with
    | Some cfg =>
        match opt_post cfg with
        | Some run_once => negb (includes ran (name script))
        | None => true
        end
    | None => true
    end
  else false.

(** [function matchGlobPatterns(items, patterns)] *)
Definition matchGlobPatterns (items patterns : list string) : bool :=
  let matchedItems :=
    flat_map (fun item => filter (fun pattern => minimatch item pattern) patterns)
             items in
  Nat.ltb 0 (List.length matchedItems).

(** [command = command.replaceAll(sub.param, sub.value)] for each
    substitution in turn. *)
Definition substituteCommand (substitutions : list Substitution)
           (commandToRun : string) : string :=
  fold_left (fun command sub => replaceAll command (sub_param sub) (sub_value sub))
            substitutions commandToRun.

(** [name = name.replace(sub.param, sub.value)] for each substitution in
    turn. *)
Definition displayName (subbedScript : ProcessedScript) : string :=
  fold_left (fun name sub => replace name (sub_param sub) (sub_value sub))
            (substitutions subbedScript) (name (script subbedScript)).

Definition bnrunPrefix : string := "bnrun ".

Definition commandLogPrefix (phase : Phase) : string :=
  match phase with PRE => "<$" | POST => ">$" | COMMAND => " $" end.

Definition scriptLogPrefix (phase : Phase) : string :=
  match phase with PRE => "[PRE]" | POST => "[POS]" | COMMAND => "[CMD]" end.

(** [function runCommand(script, commandToRun, substitutions, phase, level)];
    [executeScript] is the plan builder it calls back into, with the
    default [steps = []]. *)
Definition runCommand_
           (executeScript : ProcessedScript -> Phase -> nat -> M (list PlanStep))
           (script commandToRun : string) (substitutions : list Substitution)
           (phase : Phase) (level : nat) : M (list PlanStep) :=
  let command := substituteCommand substitutions commandToRun in
  if startsWith commandToRun bnrunPrefix then
    let runCommand := drop (String.length bnrunPrefix) command in
    (found <- lift (findMatchingScript scripts runCommand) ;;
     executeScript found phase level)%M
  else
    let skip := matchGlobPatterns [script; command] (orEmpty (skip argv)) in
    (log (commandLogPrefix phase ++ ": " ++ command) level ;;
     ret [mkStep script phase command skip])%M.

(** One phase: [cmds.map(c => runCommand(name, c, substitutions, phase,
    level + 1))] followed by [.flat()]. *)
Definition runPhase (runCommand : string -> string -> list Substitution ->
                                  Phase -> nat -> M (list PlanStep))
           (name : string) (cmds : list string)
           (substitutions : list Substitution) (phase : Phase) (level : nat)
  : M (list PlanStep) :=
  (steps <- mapM (fun c => runCommand name c substitutions phase (level + 1)) cmds ;;
   ret (concat steps))%M.

(** [function executeScript(subbedScript, phase = Phase.COMMAND,
    level = 0, steps = [])]; the local [name] of the source is [name_]
    here, [name] being the field of [Script]. *)
Fixpoint executeScript (fuel : nat) (subbedScript : ProcessedScript)
         (phase : Phase) (level : nat) (steps : list PlanStep)
  : M (list PlanStep) :=
  match fuel with
  | 0 => fun _ => OutOfFuel
  | S fuel' =>
      let runCommand :=
        runCommand_ (fun found ph lvl => executeScript fuel' found ph lvl []) in
      let builtSteps := steps in
      let name_ := displayName subbedScript in
      let script := script subbedScript in
      let substitutions := substitutions subbedScript in
      (log (scriptLogPrefix phase ++ " " ++ name_) level ;;
       doPre <- gets (fun st => shouldExecutePre (scriptsRan st) script) ;;
       builtSteps <-
         (if doPre then
            steps <- runPhase runCommand name_ (orEmpty (pre script))
                              substitutions PRE level ;;
            ret (builtSteps ++ steps)%list
          else ret builtSteps) ;;
       builtSteps <-
         (if Nat.ltb 0 (List.length (command script)) then
            steps <- runPhase runCommand name_ (command script)
                              substitutions COMMAND level ;;
            ret (builtSteps ++ steps)%list
          else ret builtSteps) ;;
       doPost <- gets (fun st => shouldExecutePost (scriptsRan st) script) ;;
       builtSteps <-
         (if doPost then
            steps <- runPhase runCommand name_ (orEmpty (post script))
                              substitutions POST level ;;
            ret (builtSteps ++ steps)%list
          else ret builtSteps) ;;
       modify (fun st => mkState (scriptsRan st ++ [name script])%list
                                 (console st)) ;;
       ret builtSteps)%M
  end.

(** [runCommand] as called from an [executeScript] that has [fuel] calls
    of depth left. *)
Definition runCommand (fuel : nat) :=
  runCommand_ (fun found ph lvl => executeScript fuel found ph lvl []).

(** The top level, for the requested name [target = argv._[0]]:
    [const found = findMatchingScript(scripts, target);
     const steps = executeScript(found);] *)
Definition buildPlan (fuel : nat) (target : string) : Res (list PlanStep * State) :=
  (found <- lift (findMatchingScript scripts target) ;;
   executeScript fuel found COMMAND 0 [])%M initialState.

(** The steps of an outcome. *)
Definition planOf (r : Res (list PlanStep * State)) : option (list PlanStep) :=
  match r with
  | Ok (steps, _) => Some steps
  | _ => None
  end.

(* ---------------------------------------------------------------- *)
(** *** Plan renderer *)
(* ---------------------------------------------------------------- *)

(** [type PlanStepExplained = PlanStep & { explanation: string }] *)
Record PlanStepExplained : Type := mkExplained {
  explained : PlanStep;
  explanation : string
}.

(** [function stepPlanPrefix(step)] *)
Definition stepPlanPrefix (step : PlanStep) : string :=
  let p := match step_phase step with
           | PRE => "pre:"
           | POST => "post:"
           | COMMAND => ""
           end in
  "> [" ++ p ++ step_script step ++ "]  ".

(** [function explainPlanStep(step, minWidth)]; [None] stands for the
    [RangeError] that [' '.repeat] throws on a negative count. *)
Definition explainPlanStep (step : PlanStep) (minWidth : nat) : option string :=
  let prefix := stepPlanPrefix step in
  if Nat.ltb minWidth (String.length prefix) then None
  else
    let spaces := JsString.repeat " " (minWidth - String.length prefix) in
    Some (prefix ++ spaces ++ "$ " ++ step_command step).

(** [xs.map(f)] for an [f] that may throw. *)
Fixpoint mapThrowing {A B} (f : A -> option B) (xs : list A) : option (list B) :=
  match xs with
  | [] => Some []
  | x :: xs' =>
      match f x with
      | Some y =>
          match mapThrowing f xs' with
          | Some ys => Some (y :: ys)
          | None => None
          end
      | None => None
      end
  end.

(** The [reduce] of [createPlan]: the longest prefix. *)
Definition planMinWidth (steps : list PlanStep) : nat :=
  fold_left
    (fun max step =>
       let str := stepPlanPrefix step in
       if Nat.ltb max (String.length str) then String.length str else max)
    steps 0.

(** [function createPlan(steps)] *)
Definition createPlan (steps : list PlanStep) : option (list PlanStepExplained) :=
  let minWidth := planMinWidth steps in
  mapThrowing
    (fun step => option_map (mkExplained step) (explainPlanStep step minWidth))
    steps.

(** Text that holds code units outside ASCII: one number per UTF-16 code
    unit. *)
Definition Text : Type := list N.

Definition units (s : string) : Text := map N_of_ascii (list_ascii_of_string s).

(** [s.padEnd(n)]; a negative [n] pads nothing, as [n = 0]. *)
Definition padEnd (s : string) (n : nat) : string :=
  s ++ JsString.repeat " " (n - String.length s).

(** [Phase[phase]] *)
Definition phaseName (phase : Phase) : string :=
  match phase with PRE => "PRE" | COMMAND => "COMMAND" | POST => "POST" end.

Definition scriptLabel : string := "Script:".
Definition phaseLabel : string := "Phase:".
Definition commandLabel : string := "Command:".
Definition willSkipLabel : string := "Will skip:".

(** [Math.max] of the four label lengths. *)
Definition maxLength : nat :=
  Nat.max (String.length scriptLabel)
          (Nat.max (String.length phaseLabel)
                   (Nat.max (String.length commandLabel) (String.length willSkipLabel))).

Definition scriptLine (step : PlanStep) : string :=
  padEnd scriptLabel maxLength ++ " " ++ step_script step.

Definition phaseLine (step : PlanStep) : string :=
  padEnd phaseLabel maxLength ++ " " ++ phaseName (step_phase step).

Definition commandLine (step : PlanStep) : string :=
  padEnd commandLabel maxLength ++ " " ++ step_command step.

Definition willSkipLine (step : PlanStep) : string :=
  padEnd willSkipLabel maxLength ++ " " ++ (if step_skip step then "Yes" else "No").

Definition boxWidth (title : string) (step : PlanStep) : nat :=
  Nat.max (String.length (scriptLine step))
          (Nat.max (String.length (phaseLine step))
                   (Nat.max (String.length (commandLine step))
                            (Nat.max (String.length title)
                                     (String.length (willSkipLine step))))) + 2.

(** The code units of the box-drawing characters and of the warning sign
    (U+26A0 followed by the variation selector U+FE0F). *)
Definition cornerTopLeft : Text := [9484%N].
Definition cornerTopRight : Text := [9488%N].
Definition cornerBottomLeft : Text := [9492%N].
Definition cornerBottomRight : Text := [9496%N].
Definition horizontal : Text := [9472%N].
Definition vertical : Text := [9474%N].
Definition teeLeft : Text := [9500%N].
Definition teeRight : Text := [9508%N].
Definition warningSign : Text := [9888%N; 65039%N].
Definition newline : Text := [10%N].

(** [t.repeat(n)] on text. *)
Fixpoint repeatText (t : Text) (n : nat) : Text :=
  match n with
  | 0 => []
  | S k => (t ++ repeatText t k)%list
  end.

Definition topBorder (w : nat) : Text :=
  (cornerTopLeft ++ repeatText horizontal w ++ cornerTopRight)%list.

Definition bottomBorder (w : nat) : Text :=
  (cornerBottomLeft ++ repeatText horizontal w ++ cornerBottomRight)%list.

Definition separatorLine (w : nat) : Text :=
  (teeLeft ++ repeatText horizontal w ++ teeRight)%list.

(** [`│ ${line.padEnd(boxWidth - 1)}│`] *)
Definition framedLine (w : nat) (line : string) : Text :=
  (vertical ++ units " " ++ units (padEnd line (w - 1)) ++ vertical)%list.

(** [`│ ⚠️ ${willSkipLine.padEnd(boxWidth - 3)}│\n`] when the step is
    skipped, the empty string otherwise. *)
Definition formattedWillSkipLine (w : nat) (step : PlanStep) : Text :=
  if step_skip step then
    (vertical ++ units " " ++ warningSign ++ units " "
       ++ units (padEnd (willSkipLine step) (w - 3)) ++ vertical ++ newline)%list
  else [].

(** [function prettyPrintable(title, script)] *)
Definition prettyPrintable (title : string) (step : PlanStep) : Text :=
  let w := boxWidth title step in
  (topBorder w ++ newline
     ++ framedLine w title ++ newline
     ++ separatorLine w ++ newline
     ++ framedLine w (scriptLine step) ++ newline
     ++ framedLine w (phaseLine step) ++ newline
     ++ framedLine w (commandLine step) ++ newline
     ++ formattedWillSkipLine w step
     ++ bottomBorder w ++ newline)%list.

(* ---------------------------------------------------------------- *)
(** *** Running the plan *)
(* ---------------------------------------------------------------- *)

Section Driver.

(** What the process does that can be seen from outside. *)
Inductive Event : Type :=
| ConsoleLog (text : Text)
| ConsoleError (text : Text)
| ExecSync (commandText : string)
| Exit (code : nat).

(** The child process: whether [execSync(command)] returns ([true]) or
    throws, given the commands run before it. *)
Variable execSync : list string -> string -> bool.

(** [log(str, level)] as output of the process. *)
Definition logEvent (str : string) (level : nat) : list Event :=
  if negb (verbose argv) then []
  else [ConsoleLog (units (JsString.repeat "  " level ++ str))].

(** [plan.forEach(step => { ... })] for the title [argv._[0]]; [ran] are
    the commands run so far.  [process.exit(1)] ends the loop. *)
Fixpoint runPlan (title : string) (ran : list string) (plan : list PlanStepExplained)
  : list Event :=
  match plan with
  | [] => []
  | entry :: rest =>
      let step := explained entry in
      ConsoleLog (prettyPrintable title step) ::
      if negb (dry argv) then
        if negb (step_skip step) then
          ExecSync (step_command step) ::
          if execSync ran (step_command step) then
            runPlan title (ran ++ [step_command step])%list rest
          else
            [ConsoleError (units ("Error executing command: " ++ step_command step));
             Exit 1]
        else
          (logEvent ("Skipping " ++ step_command step) 0 ++ runPlan title ran rest)%list
      else
        if negb (step_skip step) then
          (logEvent (explanation entry) 0 ++ runPlan title ran rest)%list
        else
          (logEvent ("Skipping " ++ explanation entry) 0 ++ runPlan title ran rest)%list
  end.

End Driver.

(** *** Reference shapes used by the statements below *)

(** A phase that is expanded only when [eligible]. *)
Definition phaseIf (eligible : bool) (m : M (list PlanStep)) : M (list PlanStep) :=
  if eligible then m else ret [].

(** The three phases of one call in sequence, the decision to expand the
    pre and post phase left to [doPre] and [doPost], each asked on the
    state reached when the phase is due. *)
Definition executePhases (fuel : nat) (subbedScript : ProcessedScript)
           (phase : Phase) (level : nat) (steps : list PlanStep)
           (doPre doPost : State -> bool) : M (list PlanStep) :=
  let name_ := displayName subbedScript in
  let s := script subbedScript in
  let subs := substitutions subbedScript in
  (log (scriptLogPrefix phase ++ " " ++ name_) level ;;
   wantPre <- gets doPre ;;
   preSteps <- phaseIf wantPre
                 (runPhase (runCommand fuel) name_ (orEmpty (pre s)) subs PRE level) ;;
   commandSteps <- phaseIf (Nat.ltb 0 (List.length (command s)))
                     (runPhase (runCommand fuel) name_ (command s) subs COMMAND level) ;;
   wantPost <- gets doPost ;;
   postSteps <- phaseIf wantPost
                  (runPhase (runCommand fuel) name_ (orEmpty (post s)) subs POST level) ;;
   modify (fun st => mkState (scriptsRan st ++ [name s])%list (console st)) ;;
   ret (steps ++ preSteps ++ commandSteps ++ postSteps)%list)%M.

(** The steps of the commands of one phase, spliced in declared order:
    [Spliced rc name subs phase level cmds st out st'] when running [cmds]
    from [st] yields [out] and leaves [st']. *)
Inductive Spliced (rc : string -> string -> list Substitution -> Phase -> nat ->
                        M (list PlanStep))
          (name : string) (subs : list Substitution) (phase : Phase) (level : nat)
  : list string -> State -> list PlanStep -> State -> Prop :=
| Spliced_nil : forall st, Spliced rc name subs phase level [] st [] st
| Spliced_cons : forall c cs st s1 st1 s2 st2,
    rc name c subs phase (level + 1) st = Ok (s1, st1) ->
    Spliced rc name subs phase level cs st1 s2 st2 ->
    Spliced rc name subs phase level (c :: cs) st (s1 ++ s2)%list st2.

(** A phase that throws [e]: the commands before the failing one have
    returned. *)
Definition PhaseThrows (rc : string -> string -> list Substitution -> Phase -> nat ->
                             M (list PlanStep))
           (name : string) (subs : list Substitution) (phase : Phase) (level : nat)
           (cmds : list string) (st : State) (e : Exn) : Prop :=
  exists cs1 c cs2 out st1,
    cmds = (cs1 ++ c :: cs2)%list /\
    Spliced rc name subs phase level cs1 st out st1 /\
    rc name c subs phase (level + 1) st1 = Err e.

(** The state after [log str level]. *)
Definition logged (str : string) (level : nat) (st : State) : State :=
  if negb (verbose argv) then st
  else mkState (scriptsRan st)
               (console st ++ [(JsString.repeat "  " level ++ str)%string])%list.

(** A call that throws [e]: the first command to throw stands in the pre,
    the command or the post phase, and everything before it has returned. *)
Definition PlanThrows (fuel : nat) (ps : ProcessedScript) (ph : Phase) (lvl : nat)
           (st : State) (e : Exn) : Prop :=
  let st0 := logged (scriptLogPrefix ph ++ " " ++ displayName ps) lvl st in
  let rc := runCommand fuel in
  let nm := displayName ps in
  let s := script ps in
  let subs := substitutions ps in
  let prePhase :=
    phaseIf (shouldExecutePre (scriptsRan st0) s)
            (runPhase rc nm (orEmpty (pre s)) subs PRE lvl) in
  let commandPhase :=
    phaseIf (Nat.ltb 0 (List.length (command s)))
            (runPhase rc nm (command s) subs COMMAND lvl) in
  (shouldExecutePre (scriptsRan st0) s = true /\
   PhaseThrows rc nm subs PRE lvl (orEmpty (pre s)) st0 e) \/
  (exists preSteps st1,
      prePhase st0 = Ok (preSteps, st1) /\
      PhaseThrows rc nm subs COMMAND lvl (command s) st1 e) \/
  (exists preSteps st1 commandSteps st2,
      prePhase st0 = Ok (preSteps, st1) /\
      commandPhase st1 = Ok (commandSteps, st2) /\
      shouldExecutePost (scriptsRan st2) s = true /\
      PhaseThrows rc nm subs POST lvl (orEmpty (post s)) st2 e).

(** The condition of the specification for the pre and the post phase. *)
Definition runOncePre (s : Script) : Prop :=
  exists cfg, config s = Some cfg /\ opt_pre cfg = Some run_once.


Definition preEligible (ran : list string) (s : Script) : Prop :=
  orEmpty (pre s) <> [] /\ (~ runOncePre s \/ ~ In (name s) ran).


(** The ledger of [st'] is the ledger of [st] with names appended. *)
Definition extends (st st' : State) : Prop :=
  exists mid, scriptsRan st' = (scriptsRan st ++ mid)%list.

(** The flag a step carries is the verdict of the skip filter on its
    script name and command text. *)
Definition skipFiltered (s : PlanStep) : Prop :=
  step_skip s = matchGlobPatterns [step_script s; step_command s] (orEmpty (skip argv)).

(** Two outcomes that agree but for the console: the same value and
    ledger, the same exception, or no return in both. *)
Definition sameOutcome {A} (r1 r2 : Res (A * State)) : Prop :=
  match r1, r2 with
  | Ok (a1, st1), Ok (a2, st2) => a1 = a2 /\ scriptsRan st1 = scriptsRan st2
  | Err e1, Err e2 => e1 = e2
  | OutOfFuel, OutOfFuel => True
  | _, _ => False
  end.

(** Two computations that agree but for the console on states with the
    same ledger. *)
Definition ledgerRelated {A} (m1 m2 : M A) : Prop :=
  forall st1 st2, scriptsRan st1 = scriptsRan st2 -> sameOutcome (m1 st1) (m2 st2).

(** The console of [st'] is the console of [st] with lines appended, none
    when [verbose] is off. *)
Definition consoleGrows (st st' : State) : Prop :=
  exists more, console st' = (console st ++ more)%list /\
               (verbose argv = false -> more = []).

(** The steps of the command templates [cmds] of one phase of [ps] when
    each template yields its own step. *)
Definition leafSteps (ps : ProcessedScript) (phase : Phase) (cmds : list string)
  : list PlanStep :=
  map (fun c =>
         let command := substituteCommand (substitutions ps) c in
         mkStep (displayName ps) phase command
                (matchGlobPatterns [displayName ps; command] (orEmpty (skip argv))))
      cmds.

(** No command template of the list is a self-invocation. *)
Definition noSelfInvocation (cmds : list string) : Prop :=
  forall c, In c cmds -> startsWith c bnrunPrefix = false.

(** The commands a trace handed to [execSync], in order. *)
Definition executedCommands (events : list Event) : list string :=
  flat_map (fun e => match e with ExecSync c => [c] | _ => [] end) events.

(** Whether an event is the end of the process. *)
Definition isExit (e : Event) : bool :=
  match e with Exit _ => true | _ => false end.

(** The commands of [cmds] up to and including the first that fails, [ran]
    being the commands run before. *)
Fixpoint upToFirstFailure (execSync : list string -> string -> bool)
         (ran : list string) (cmds : list string) : list string :=
  match cmds with
  | [] => []
  | c :: rest =>
      c :: if execSync ran c then upToFirstFailure execSync (ran ++ [c])%list rest
           else []
  end.

(** The commands of the steps that are not flagged for skipping. *)
Definition commandsToRun (plan : list PlanStepExplained) : list string :=
  map (fun entry => step_command (explained entry))
      (filter (fun entry => negb (step_skip (explained entry))) plan).

(** [m2] returns what [m1] returns wherever [m1] returns within its depth. *)
Definition refines {A} (m1 m2 : M A) : Prop :=
  forall st, m1 st <> OutOfFuel -> m2 st = m1 st.

(* ---------------------------------------------------------------- *)
(** *** The monad *)
(* ---------------------------------------------------------------- *)

Lemma bind_Ok_inv {A B} (m : M A) (k : A -> M B) st b st' :
  bind m k st = Ok (b, st') ->
  exists a st1, m st = Ok (a, st1) /\ k a st1 = Ok (b, st').
Proof.
  unfold bind. destruct (m st) as [[a st1] | e |]; try discriminate.
  intros H. exists a, st1. split; [reflexivity | exact H].
Qed.

Lemma bind_Err_inv {A B} (m : M A) (k : A -> M B) st e :
  bind m k st = Err e ->
  m st = Err e \/ exists a st1, m st = Ok (a, st1) /\ k a st1 = Err e.
Proof.
  unfold bind. destruct (m st) as [[a st1] | e' |]; try discriminate.
  - intros H. right. exists a, st1. split; [reflexivity | exact H].
  - intros H. left. now inversion H.
Qed.

Lemma bind_Ok {A B} (m : M A) (k : A -> M B) st a st1 :
  m st = Ok (a, st1) -> bind m k st = k a st1.
Proof. unfold bind. now intros ->. Qed.

Lemma bind_Err {A B} (m : M A) (k : A -> M B) st e :
  m st = Err e -> bind m k st = Err e.
Proof. unfold bind. now intros ->. Qed.

Lemma log_run str level st : log str level st = Ok (tt, logged str level st).
Proof. unfold log, logged. now destruct (negb (verbose argv)). Qed.

Lemma logged_scriptsRan str level st :
  scriptsRan (logged str level st) = scriptsRan st.
Proof. unfold logged. now destruct (negb (verbose argv)). Qed.

Lemma refines_refl {A} (m : M A) : refines m m.
Proof. now intros st _. Qed.

Lemma refines_bind {A B} (m1 m2 : M A) (k1 k2 : A -> M B) :
  refines m1 m2 -> (forall a, refines (k1 a) (k2 a)) ->
  refines (bind m1 k1) (bind m2 k2).
Proof.
  intros Hm Hk st. unfold bind. specialize (Hm st).
  destruct (m1 st) as [[a st1] | e |] eqn:E1.
  - rewrite Hm by discriminate. apply Hk.
  - rewrite Hm by discriminate. reflexivity.
  - intros H. now contradiction H.
Qed.

Lemma refines_mapM {A B} (f1 f2 : A -> M B) xs :
  (forall x, refines (f1 x) (f2 x)) -> refines (mapM f1 xs) (mapM f2 xs).
Proof.
  intros Hf. induction xs as [| x xs IH]; simpl.
  - apply refines_refl.
  - apply refines_bind; [apply Hf |]. intros y.
    apply refines_bind; [apply IH |]. intros ys. apply refines_refl.
Qed.

Lemma bind_ext {A B} (m : M A) (k1 k2 : A -> M B) st :
  (forall a st1, k1 a st1 = k2 a st1) -> bind m k1 st = bind m k2 st.
Proof.
  intros Hk. unfold bind. destruct (m st) as [[a st1] | e |]; auto.
Qed.

Lemma bind_phaseIf {B} (b : bool) (m : M (list PlanStep)) (acc : list PlanStep)
      (k : list PlanStep -> M B) st :
  bind (if b then bind m (fun steps => ret (acc ++ steps)%list) else ret acc) k st =
  bind (phaseIf b m) (fun steps => k (acc ++ steps)%list) st.
Proof.
  unfold phaseIf, bind, ret. destruct b.
  - destruct (m st) as [[a st1] | e |]; reflexivity.
  - now rewrite app_nil_r.
Qed.

(* ---------------------------------------------------------------- *)
(** *** One call of the plan builder *)
(* ---------------------------------------------------------------- *)

Lemma executeScript_unfold fuel ps ph lvl steps st :
  executeScript (S fuel) ps ph lvl steps st =
  executePhases fuel ps ph lvl steps
                (fun st => shouldExecutePre (scriptsRan st) (script ps))
                (fun st => shouldExecutePost (scriptsRan st) (script ps)) st.
Proof.
  cbn [executeScript]. unfold executePhases. fold (runCommand fuel).
  apply bind_ext; intros _ st1.
  apply bind_ext; intros doPre st2.
  rewrite bind_phaseIf. apply bind_ext; intros preSteps st3.
  rewrite bind_phaseIf. apply bind_ext; intros commandSteps st4.
  apply bind_ext; intros doPost st5.
  rewrite bind_phaseIf. apply bind_ext; intros postSteps st6.
  now rewrite <- !app_assoc.
Qed.

Lemma executePhases_Ok_iff fuel ps ph lvl steps doPre doPost st out st' :
  executePhases fuel ps ph lvl steps doPre doPost st = Ok (out, st') <->
  exists preSteps commandSteps postSteps st1 st2 st3,
    let st0 := logged (scriptLogPrefix ph ++ " " ++ displayName ps) lvl st in
    phaseIf (doPre st0)
            (runPhase (runCommand fuel) (displayName ps) (orEmpty (pre (script ps)))
                      (substitutions ps) PRE lvl) st0 = Ok (preSteps, st1) /\
    phaseIf (Nat.ltb 0 (List.length (command (script ps))))
            (runPhase (runCommand fuel) (displayName ps) (command (script ps))
                      (substitutions ps) COMMAND lvl) st1 = Ok (commandSteps, st2) /\
    phaseIf (doPost st2)
            (runPhase (runCommand fuel) (displayName ps) (orEmpty (post (script ps)))
                      (substitutions ps) POST lvl) st2 = Ok (postSteps, st3) /\
    out = (steps ++ preSteps ++ commandSteps ++ postSteps)%list /\
    st' = mkState (scriptsRan st3 ++ [name (script ps)])%list (console st3).
Proof.
  unfold executePhases. split.
  - intros H.
    apply bind_Ok_inv in H as (u & s0 & Hlog & H). rewrite log_run in Hlog.
    injection Hlog as _ <-.
    apply bind_Ok_inv in H as (b1 & s0' & Hg & H). injection Hg as <- <-.
    apply bind_Ok_inv in H as (preSteps & st1 & Hpre & H).
    apply bind_Ok_inv in H as (commandSteps & st2 & Hcmd & H).
    apply bind_Ok_inv in H as (b2 & s2' & Hg & H). injection Hg as <- <-.
    apply bind_Ok_inv in H as (postSteps & st3 & Hpost & H).
    apply bind_Ok_inv in H as (u' & s3' & Hm & H). injection Hm as _ <-.
    injection H as <- <-.
    exists preSteps, commandSteps, postSteps, st1, st2, st3. cbv zeta. auto.
  - intros (preSteps & commandSteps & postSteps & st1 & st2 & st3 & H).
    cbv zeta in H. destruct H as (Hpre & Hcmd & Hpost & -> & ->).
    rewrite (bind_Ok _ _ _ _ _ (log_run _ _ _)).
    unfold gets at 1. unfold bind at 1.
    rewrite (bind_Ok _ _ _ _ _ Hpre), (bind_Ok _ _ _ _ _ Hcmd).
    unfold gets at 1. unfold bind at 1.
    rewrite (bind_Ok _ _ _ _ _ Hpost). reflexivity.
Qed.

Lemma runPhase_Ok_iff rc nm cmds subs ph lvl st out st' :
  runPhase rc nm cmds subs ph lvl st = Ok (out, st') <->
  Spliced rc nm subs ph lvl cmds st out st'.
Proof.
  unfold runPhase. split.
  - revert st out st'. induction cmds as [| c cs IH]; intros st out st' H.
    + cbn in H. injection H as <- <-. constructor.
    + apply bind_Ok_inv in H as (steps & st2 & Hm & H). injection H as <- <-.
      cbn [mapM] in Hm.
      apply bind_Ok_inv in Hm as (s1 & st1 & Hc & Hm).
      apply bind_Ok_inv in Hm as (ss & st1' & Hrest & Hm). injection Hm as <- <-.
      cbn [concat]. econstructor; [exact Hc |].
      apply IH. now rewrite (bind_Ok _ _ _ _ _ Hrest).
  - induction 1 as [st0 | c cs st0 s1 st1 s2 st2 Hc _ IH].
    + reflexivity.
    + apply bind_Ok_inv in IH as (ss & st2' & Hrest & IH). injection IH as <- <-.
      cbn [mapM]. unfold bind at 1. unfold bind at 1. rewrite Hc.
      unfold bind at 1. rewrite Hrest. reflexivity.
Qed.

Lemma runPhase_Err_iff rc nm cmds subs ph lvl st e :
  runPhase rc nm cmds subs ph lvl st = Err e <->
  PhaseThrows rc nm subs ph lvl cmds st e.
Proof.
  unfold PhaseThrows. split.
  - revert st. induction cmds as [| c cs IH]; intros st H.
    + discriminate.
    + unfold runPhase in H. cbn [mapM] in H.
      apply bind_Err_inv in H as [H | (? & ? & _ & H)]; [| discriminate].
      apply bind_Err_inv in H as [H | (s1 & st1 & Hc & H)].
      * exists [], c, cs, [], st. repeat split; [constructor | exact H].
      * apply bind_Err_inv in H as [H | (? & ? & _ & H)]; [| discriminate].
        destruct (IH st1) as (cs1 & c' & cs2 & out & st2 & -> & Hs & He).
        { unfold runPhase. now rewrite (bind_Err _ _ _ _ H). }
        exists (c :: cs1), c', cs2, (s1 ++ out)%list, st2.
        repeat split; [econstructor; eassumption | exact He].
  - intros (cs1 & c & cs2 & out & st1 & -> & Hs & He).
    induction Hs as [st0 | c0 cs0 st0 s1 st1 s2 st2 Hc _ IH].
    + unfold runPhase. cbn [app mapM]. unfold bind at 1. unfold bind at 1.
      now rewrite He.
    + specialize (IH He). unfold runPhase in *. cbn [app mapM].
      unfold bind at 1. unfold bind at 1. rewrite Hc. unfold bind at 1.
      apply bind_Err_inv in IH as [IH | (? & ? & _ & IH)]; [| discriminate].
      now rewrite IH.
Qed.

Lemma phaseIf_Ok_false m st out st' :
  phaseIf false m st = Ok (out, st') <-> out = [] /\ st' = st.
Proof.
  cbn. unfold ret. split.
  - intros H. injection H as <- <-. auto.
  - now intros [-> ->].
Qed.

(* ---------------------------------------------------------------- *)
(** *** Recursion depth *)
(* ---------------------------------------------------------------- *)

Lemma runCommand_refines exec1 exec2 nm c subs ph lvl :
  (forall found p l, refines (exec1 found p l) (exec2 found p l)) ->
  refines (runCommand_ exec1 nm c subs ph lvl) (runCommand_ exec2 nm c subs ph lvl).
Proof.
  intros H. unfold runCommand_.
  destruct (startsWith c bnrunPrefix).
  - apply refines_bind; [apply refines_refl |]. intros found. apply H.
  - apply refines_refl.
Qed.

Lemma runPhase_refines rc1 rc2 nm cmds subs ph lvl :
  (forall n c s p l, refines (rc1 n c s p l) (rc2 n c s p l)) ->
  refines (runPhase rc1 nm cmds subs ph lvl) (runPhase rc2 nm cmds subs ph lvl).
Proof.
  intros H. unfold runPhase.
  apply refines_bind; [| intros; apply refines_refl].
  apply refines_mapM. intros c. apply H.
Qed.

Lemma executeScript_S fuel :
  forall ps ph lvl steps,
    refines (executeScript fuel ps ph lvl steps) (executeScript (S fuel) ps ph lvl steps).
Proof.
  induction fuel as [| fuel IH]; intros ps ph lvl steps.
  - intros st H. now contradiction H.
  - assert (Hrc : forall n c s p l,
               refines (runCommand_ (fun found ph lvl => executeScript fuel found ph lvl [])
                                    n c s p l)
                       (runCommand_ (fun found ph lvl => executeScript (S fuel) found ph lvl [])
                                    n c s p l)).
    { intros. apply runCommand_refines. intros. apply IH. }
    remember (S fuel) as fuel1. cbn [executeScript]. subst fuel1.
    cbn [executeScript].
    apply refines_bind; [apply refines_refl | intros _].
    apply refines_bind; [apply refines_refl | intros doPre].
    apply refines_bind.
    { destruct doPre; [| apply refines_refl].
      apply refines_bind; [| intros; apply refines_refl].
      apply runPhase_refines, Hrc. }
    intros b1. apply refines_bind.
    { destruct (Nat.ltb 0 (List.length (command (script ps)))); [| apply refines_refl].
      apply refines_bind; [| intros; apply refines_refl].
      apply runPhase_refines, Hrc. }
    intros b2. apply refines_bind; [apply refines_refl | intros doPost].
    apply refines_bind; [| intros; apply refines_refl].
    destruct doPost; [| apply refines_refl].
    apply refines_bind; [| intros; apply refines_refl].
    apply runPhase_refines, Hrc.
Qed.

(** A call that returns or throws within depth [fuel] does the same
    within any larger depth. *)
Lemma executeScript_mono fuel fuel' :
  fuel <= fuel' ->
  forall ps ph lvl steps,
    refines (executeScript fuel ps ph lvl steps) (executeScript fuel' ps ph lvl steps).
Proof.
  induction 1 as [| fuel' _ IH]; intros ps ph lvl steps.
  - apply refines_refl.
  - intros st H. rewrite <- (IH ps ph lvl steps st H).
    apply executeScript_S. now rewrite (IH ps ph lvl steps st H).
Qed.

(* ---------------------------------------------------------------- *)
(** *** The run-once ledger only grows *)
(* ---------------------------------------------------------------- *)

Lemma extends_refl st : extends st st.
Proof. exists []. now rewrite app_nil_r. Qed.

Lemma extends_trans st1 st2 st3 : extends st1 st2 -> extends st2 st3 -> extends st1 st3.
Proof.
  intros [m1 H1] [m2 H2]. exists (m1 ++ m2)%list. now rewrite H2, H1, app_assoc.
Qed.

Lemma extends_includes st st' x :
  extends st st' -> includes (scriptsRan st) x = true -> includes (scriptsRan st') x = true.
Proof.
  intros [mid ->]. unfold includes. rewrite existsb_app. now intros ->.
Qed.

Lemma Spliced_extends rc nm subs ph lvl cmds st out st' :
  (forall c st out st', rc nm c subs ph (lvl + 1) st = Ok (out, st') -> extends st st') ->
  Spliced rc nm subs ph lvl cmds st out st' -> extends st st'.
Proof.
  intros Hrc. induction 1 as [st0 | c cs st0 s1 st1 s2 st2 Hc _ IH].
  - apply extends_refl.
  - eapply extends_trans; [eapply Hrc; eassumption | exact IH].
Qed.

Lemma phaseIf_extends b rc nm cmds subs ph lvl st out st' :
  (forall c st out st', rc nm c subs ph (lvl + 1) st = Ok (out, st') -> extends st st') ->
  phaseIf b (runPhase rc nm cmds subs ph lvl) st = Ok (out, st') -> extends st st'.
Proof.
  intros Hrc. destruct b; intros H.
  - apply runPhase_Ok_iff in H. eapply Spliced_extends; eassumption.
  - apply phaseIf_Ok_false in H as [_ ->]. apply extends_refl.
Qed.

Lemma runCommand_extends_ fuel :
  (forall ps ph lvl steps st out st',
      executeScript fuel ps ph lvl steps st = Ok (out, st') -> extends st st') ->
  forall nm c subs ph lvl st out st',
    runCommand fuel nm c subs ph lvl st = Ok (out, st') -> extends st st'.
Proof.
  intros IH nm c subs ph lvl st out st'. unfold runCommand, runCommand_.
  destruct (startsWith c bnrunPrefix).
  - intros H. apply bind_Ok_inv in H as (found & st1 & Hf & H).
    unfold lift in Hf.
    destruct (findMatchingScript scripts _); try discriminate.
    injection Hf as <- <-. eapply IH; eassumption.
  - intros H. apply bind_Ok_inv in H as (u & st1 & Hlog & H).
    rewrite log_run in Hlog. injection Hlog as _ <-. injection H as _ <-.
    exists []. now rewrite logged_scriptsRan, app_nil_r.
Qed.

(** Every call that returns has appended the template name of its script
    at the end of the ledger, after whatever its nested calls appended. *)
Lemma executeScript_ledger fuel :
  forall ps ph lvl steps st out st',
    executeScript fuel ps ph lvl steps st = Ok (out, st') ->
    exists mid, scriptsRan st' = (scriptsRan st ++ mid ++ [name (script ps)])%list.
Proof.
  induction fuel as [| fuel IH]; intros ps ph lvl steps st out st' H.
  - discriminate.
  - assert (Hrc : forall nm c subs ph lvl st out st',
               runCommand fuel nm c subs ph lvl st = Ok (out, st') -> extends st st').
    { apply runCommand_extends_. intros ps0 ph0 lvl0 steps0 st0 out0 st0' H0.
      destruct (IH _ _ _ _ _ _ _ H0) as [mid Hmid].
      exists (mid ++ [name (script ps0)])%list. exact Hmid. }
    rewrite executeScript_unfold in H. apply executePhases_Ok_iff in H.
    destruct H as (preS & cmdS & postS & st1 & st2 & st3 & H). cbv zeta in H.
    destruct H as (Hpre & Hcmd & Hpost & _ & ->).
    apply phaseIf_extends in Hpre; [| intros; eapply Hrc; eassumption].
    apply phaseIf_extends in Hcmd; [| intros; eapply Hrc; eassumption].
    apply phaseIf_extends in Hpost; [| intros; eapply Hrc; eassumption].
    destruct (extends_trans _ _ _ Hpre (extends_trans _ _ _ Hcmd Hpost)) as [mid Hmid].
    exists mid. cbn [scriptsRan]. rewrite Hmid, logged_scriptsRan.
    now rewrite app_assoc.
Qed.

Lemma executeScript_extends fuel ps ph lvl steps st out st' :
  executeScript fuel ps ph lvl steps st = Ok (out, st') -> extends st st'.
Proof.
  intros H. destruct (executeScript_ledger _ _ _ _ _ _ _ _ H) as [mid Hmid].
  now exists (mid ++ [name (script ps)])%list.
Qed.

Lemma executeScript_marks fuel ps ph lvl steps st out st' :
  executeScript fuel ps ph lvl steps st = Ok (out, st') ->
  includes (scriptsRan st') (name (script ps)) = true.
Proof.
  intros H. destruct (executeScript_ledger _ _ _ _ _ _ _ _ H) as [mid ->].
  unfold includes. rewrite !existsb_app. cbn. rewrite String.eqb_refl.
  now rewrite !orb_true_r.
Qed.

(* ---------------------------------------------------------------- *)
(** *** The skip flag of the steps of a plan *)
(* ---------------------------------------------------------------- *)

Lemma Spliced_Forall (P : PlanStep -> Prop) rc nm subs ph lvl cmds st out st' :
  (forall c st out st', rc nm c subs ph (lvl + 1) st = Ok (out, st') -> Forall P out) ->
  Spliced rc nm subs ph lvl cmds st out st' -> Forall P out.
Proof.
  intros Hrc. induction 1 as [st0 | c cs st0 s1 st1 s2 st2 Hc _ IH].
  - constructor.
  - apply Forall_app. split; [eapply Hrc; eassumption | exact IH].
Qed.

Lemma phaseIf_Forall (P : PlanStep -> Prop) b rc nm cmds subs ph lvl st out st' :
  (forall c st out st', rc nm c subs ph (lvl + 1) st = Ok (out, st') -> Forall P out) ->
  phaseIf b (runPhase rc nm cmds subs ph lvl) st = Ok (out, st') -> Forall P out.
Proof.
  intros Hrc. destruct b; intros H.
  - apply runPhase_Ok_iff in H. eapply Spliced_Forall; eassumption.
  - apply phaseIf_Ok_false in H as [-> _]. constructor.
Qed.

Lemma executeScript_skipFiltered fuel :
  forall ps ph lvl steps st out st',
    executeScript fuel ps ph lvl steps st = Ok (out, st') ->
    Forall skipFiltered steps -> Forall skipFiltered out.
Proof.
  induction fuel as [| fuel IH]; intros ps ph lvl steps st out st' H Hsteps.
  - discriminate.
  - assert (Hrc : forall nm c subs ph lvl st out st',
               runCommand fuel nm c subs ph lvl st = Ok (out, st') ->
               Forall skipFiltered out).
    { intros nm c subs ph0 lvl0 st0 out0 st0'. unfold runCommand, runCommand_.
      destruct (startsWith c bnrunPrefix).
      - intros H0. apply bind_Ok_inv in H0 as (found & st1 & _ & H0).
        eapply IH; [exact H0 | constructor].
      - intros H0. apply bind_Ok_inv in H0 as (u & st1 & _ & H0).
        injection H0 as <- _. repeat constructor. }
    rewrite executeScript_unfold in H. apply executePhases_Ok_iff in H.
    destruct H as (preS & cmdS & postS & st1 & st2 & st3 & H). cbv zeta in H.
    destruct H as (Hpre & Hcmd & Hpost & -> & _).
    apply phaseIf_Forall with (P := skipFiltered) in Hpre;
      [| intros; eapply Hrc; eassumption].
    apply phaseIf_Forall with (P := skipFiltered) in Hcmd;
      [| intros; eapply Hrc; eassumption].
    apply phaseIf_Forall with (P := skipFiltered) in Hpost;
      [| intros; eapply Hrc; eassumption].
    repeat (apply Forall_app; split); assumption.
Qed.

Lemma matchGlobPatterns_true_iff items patterns :
  matchGlobPatterns items patterns = true <->
  exists item pattern,
    In item items /\ In pattern patterns /\ minimatch item pattern = true.
Proof.
  unfold matchGlobPatterns. rewrite Nat.ltb_lt. split.
  - intros H.
    destruct (flat_map _ items) as [| p l] eqn:E; [cbn in H; lia |].
    assert (Hin : In p (flat_map
              (fun item => filter (fun pattern => minimatch item pattern) patterns)
              items)) by (rewrite E; now left).
    apply in_flat_map in Hin as (item & Hitem & Hp).
    apply filter_In in Hp as [Hp Hm]. now exists item, p.
  - intros (item & pattern & Hitem & Hp & Hm).
    assert (Hin : In pattern (flat_map
              (fun item => filter (fun pattern => minimatch item pattern) patterns)
              items)).
    { apply in_flat_map. exists item. split; [exact Hitem |].
      apply filter_In. now split. }
    destruct (flat_map _ items); [destruct Hin | cbn; lia].
Qed.

(* ---------------------------------------------------------------- *)
(** *** Exceptions *)
(* ---------------------------------------------------------------- *)

Lemma phaseIf_Err_iff b rc nm cmds subs ph lvl st e :
  phaseIf b (runPhase rc nm cmds subs ph lvl) st = Err e <->
  b = true /\ PhaseThrows rc nm subs ph lvl cmds st e.
Proof.
  destruct b; cbn [phaseIf].
  - rewrite runPhase_Err_iff. intuition.
  - unfold ret. split; [discriminate | intros [H _]; discriminate].
Qed.

Lemma PhaseThrows_nonempty rc nm subs ph lvl cmds st e :
  PhaseThrows rc nm subs ph lvl cmds st e -> Nat.ltb 0 (List.length cmds) = true.
Proof.
  intros (cs1 & c & cs2 & _ & _ & -> & _). apply Nat.ltb_lt.
  rewrite length_app. cbn. lia.
Qed.

(** What a call throws is what the first throwing command of its phases
    throws; nothing is caught. *)
Lemma executeScript_Err_iff fuel ps ph lvl steps st e :
  executeScript (S fuel) ps ph lvl steps st = Err e <-> PlanThrows fuel ps ph lvl st e.
Proof.
  rewrite executeScript_unfold. unfold executePhases, PlanThrows. cbv zeta.
  rewrite (bind_Ok _ _ _ _ _ (log_run _ _ _)).
  unfold gets at 1. unfold bind at 1.
  set (st0 := logged _ lvl st).
  split.
  - intros H. apply bind_Err_inv in H as [H | (preS & st1 & Hpre & H)].
    { left. now apply phaseIf_Err_iff in H. }
    right. apply bind_Err_inv in H as [H | (cmdS & st2 & Hcmd & H)].
    { left. exists preS, st1. split; [exact Hpre |]. now apply phaseIf_Err_iff in H. }
    right. unfold gets at 1 in H. unfold bind at 1 in H.
    apply bind_Err_inv in H as [H | (postS & st3 & Hpost & H)].
    { apply phaseIf_Err_iff in H as [Hb H]. now exists preS, st1, cmdS, st2. }
    discriminate.
  - intros [[Hb H] | [(preS & st1 & Hpre & H) | (preS & st1 & cmdS & st2 & Hpre & Hcmd & Hb & H)]].
    + apply bind_Err. apply phaseIf_Err_iff. now split.
    + rewrite (bind_Ok _ _ _ _ _ Hpre). apply bind_Err. apply phaseIf_Err_iff.
      split; [eapply PhaseThrows_nonempty; exact H | exact H].
    + rewrite (bind_Ok _ _ _ _ _ Hpre), (bind_Ok _ _ _ _ _ Hcmd).
      unfold gets at 1. unfold bind at 1. apply bind_Err. apply phaseIf_Err_iff.
      now split.
Qed.

(** What [runCommand] throws: the resolver's exception for the nested
    name, or what the nested call throws. *)
Lemma runCommand_Err_iff fuel nm commandToRun subs ph lvl st e :
  runCommand fuel nm commandToRun subs ph lvl st = Err e <->
  startsWith commandToRun bnrunPrefix = true /\
  let nested := drop (String.length bnrunPrefix) (substituteCommand subs commandToRun) in
  (findMatchingScript scripts nested = Err e \/
   exists found, findMatchingScript scripts nested = Ok found /\
                 executeScript fuel found ph lvl [] st = Err e).
Proof.
  unfold runCommand, runCommand_. cbv zeta.
  destruct (startsWith commandToRun bnrunPrefix).
  - unfold bind, lift.
    destruct (findMatchingScript scripts _) as [found | e' |].
    + split.
      * intros H. split; [reflexivity |]. right. now exists found.
      * intros [_ [H | (found' & Hf & H)]]; [discriminate |].
        injection Hf as <-. exact H.
    + split.
      * intros H. injection H as <-. split; [reflexivity | now left].
      * intros [_ [H | (found' & Hf & _)]]; [| discriminate].
        injection H as <-. reflexivity.
    + split; [discriminate |].
      intros [_ [H | (found' & Hf & _)]]; discriminate.
  - rewrite (bind_Ok _ _ _ _ _ (log_run _ _ _)). unfold ret.
    split; [discriminate | intros [H _]; discriminate].
Qed.

Lemma buildPlan_mono fuel fuel' target :
  fuel <= fuel' -> buildPlan fuel target <> OutOfFuel ->
  buildPlan fuel' target = buildPlan fuel target.
Proof.
  intros Hle. unfold buildPlan.
  apply (refines_bind (lift (findMatchingScript scripts target)) _ _ _ (refines_refl _)).
  intros found. now apply executeScript_mono.
Qed.

Lemma phaseIf_Spliced b rc nm cmds subs ph lvl st out st' :
  phaseIf b (runPhase rc nm cmds subs ph lvl) st = Ok (out, st') <->
  Spliced rc nm subs ph lvl (if b then cmds else []) st out st'.
Proof.
  destruct b; cbn [phaseIf].
  - apply runPhase_Ok_iff.
  - rewrite <- runPhase_Ok_iff. reflexivity.
Qed.

Lemma phaseIf_nonempty_Spliced rc nm cmds subs ph lvl st out st' :
  phaseIf (Nat.ltb 0 (List.length cmds)) (runPhase rc nm cmds subs ph lvl) st = Ok (out, st') <->
  Spliced rc nm subs ph lvl cmds st out st'.
Proof.
  rewrite phaseIf_Spliced. now destruct cmds.
Qed.

Lemma includes_In (xs : list string) (x : string) :
  includes xs x = true <-> In x xs.
Proof.
  unfold includes. rewrite existsb_exists. split.
  - intros (y & Hy & E). apply String.eqb_eq in E. now subst.
  - intros H. exists x. split; [exact H | apply String.eqb_refl].
Qed.

Lemma nonEmpty_orEmpty {A} (a : option (list A)) :
  nonEmpty a = true <-> orEmpty a <> [].
Proof.
  destruct a as [[| x l] |]; cbn; split; congruence.
Qed.

Lemma shouldExecutePre_iff ran s :
  shouldExecutePre ran s = true <-> preEligible ran s.
Proof.
  unfold shouldExecutePre, preEligible, runOncePre.
  destruct (nonEmpty (pre s)) eqn:Hne.
  - apply nonEmpty_orEmpty in Hne.
    destruct (config s) as [cfg |].
    + destruct (opt_pre cfg) as [[] |] eqn:Hopt.
      * rewrite negb_true_iff, <- not_true_iff_false, includes_In.
        split.
        -- intros H. split; [exact Hne | now right].
        -- intros [_ [H | H]]; [| exact H].
           contradiction H. now exists cfg.
      * split; [| reflexivity]. intros _. split; [exact Hne |]. left.
        intros (cfg' & E & H). injection E as <-. congruence.
    + split; [| reflexivity]. intros _. split; [exact Hne |]. left.
      intros (cfg' & E & _). discriminate.
  - split; [discriminate |]. intros [H _].
    apply nonEmpty_orEmpty in H. congruence.
Qed.


(** Only the answer of [doPre] on the state after the opening log line
    matters. *)
Lemma executePhases_doPre fuel ps ph lvl steps doPre doPre' doPost st :
  doPre (logged (scriptLogPrefix ph ++ " " ++ displayName ps) lvl st) =
  doPre' (logged (scriptLogPrefix ph ++ " " ++ displayName ps) lvl st) ->
  executePhases fuel ps ph lvl steps doPre doPost st =
  executePhases fuel ps ph lvl steps doPre' doPost st.
Proof.
  intros H. unfold executePhases.
  rewrite !(bind_Ok _ _ _ _ _ (log_run _ _ _)).
  unfold gets at 1 3. unfold bind at 1 7. now rewrite H.
Qed.

Lemma shouldExecutePre_run_once ran s :
  runOncePre s -> includes ran (name s) = true -> shouldExecutePre ran s = false.
Proof.
  intros Hro Hin. apply not_true_iff_false. rewrite shouldExecutePre_iff.
  intros [_ [H | H]]; [contradiction |]. apply H. now apply includes_In.
Qed.

Lemma Spliced_nil_inv rc nm subs ph lvl st out st' :
  Spliced rc nm subs ph lvl [] st out st' -> out = [] /\ st' = st.
Proof. intros H. inversion H. now split. Qed.

(** What a call returns, phase by phase. *)
Lemma executeScript_Ok_Spliced fuel ps ph lvl st out st' :
  executeScript (S fuel) ps ph lvl [] st = Ok (out, st') <->
  exists preSteps commandSteps postSteps st1 st2 st3,
    let st0 := logged (scriptLogPrefix ph ++ " " ++ displayName ps) lvl st in
    let rc := runCommand fuel in
    let s := script ps in
    Spliced rc (displayName ps) (substitutions ps) PRE lvl
            (if shouldExecutePre (scriptsRan st0) s then orEmpty (pre s) else [])
            st0 preSteps st1 /\
    Spliced rc (displayName ps) (substitutions ps) COMMAND lvl
            (command s) st1 commandSteps st2 /\
    Spliced rc (displayName ps) (substitutions ps) POST lvl
            (if shouldExecutePost (scriptsRan st2) s then orEmpty (post s) else [])
            st2 postSteps st3 /\
    out = (preSteps ++ commandSteps ++ postSteps)%list /\
    st' = mkState (scriptsRan st3 ++ [name s])%list (console st3).
Proof.
  rewrite executeScript_unfold, executePhases_Ok_iff. cbv zeta.
  split.
  - intros (preS & cmdS & postS & st1 & st2 & st3 & Hpre & Hcmd & Hpost & -> & ->).
    exists preS, cmdS, postS, st1, st2, st3.
    apply phaseIf_Spliced in Hpre. apply phaseIf_nonempty_Spliced in Hcmd.
    apply phaseIf_Spliced in Hpost. auto.
  - intros (preS & cmdS & postS & st1 & st2 & st3 & Hpre & Hcmd & Hpost & -> & ->).
    exists preS, cmdS, postS, st1, st2, st3.
    apply phaseIf_Spliced in Hpre. apply phaseIf_nonempty_Spliced in Hcmd.
    apply phaseIf_Spliced in Hpost. auto.
Qed.

End Engine.

(* ================================================================== *)
(** ** Facts about the resolver *)
(* ================================================================== *)

Lemma find_none_iff {A} (f : A -> bool) (l : list A) :
  find f l = None <-> forall x, In x l -> f x = false.
Proof.
  split.
  - intros H x Hx. exact (find_none f l H x Hx).
  - induction l as [| a l IH]; intros H; [reflexivity |].
    cbn. rewrite (H a (or_introl eq_refl)). apply IH.
    intros x Hx. apply H. now right.
Qed.

Lemma find_first {A} (f : A -> bool) (before : list A) (x : A) (after : list A) :
  (forall y, In y before -> f y = false) -> f x = true ->
  find f (before ++ x :: after)%list = Some x.
Proof.
  intros Hb Hx. induction before as [| b before IH]; cbn.
  - now rewrite Hx.
  - rewrite (Hb b (or_introl eq_refl)). apply IH.
    intros y Hy. apply Hb. now right.
Qed.

(** The [while] loop, when the requested name yields no usable value:
    nothing is replaced and nothing is recorded. *)
Lemma substituteName_no_value (s : Script) (param : string) :
  truthy (nth_error (split ":" param) 1) = false ->
  substituteName s param = (name s, []).
Proof.
  intros Hv. unfold substituteName.
  generalize (execAll (name s)). intros l.
  destruct (nth_error (split ":" param) 1) as [v |].
  - rewrite Hv. induction l as [| p l IH]; [reflexivity | exact IH].
  - induction l as [| p l IH]; [reflexivity | exact IH].
Qed.

(** The [while] loop, when the requested name yields the value [v]: one
    replacement of the first occurrence and one recorded pair per match
    of the expression, in the order of the matches. *)
Lemma substituteName_value (s : Script) (param v : string) :
  nth_error (split ":" param) 1 = Some v -> v <> EmptyString ->
  substituteName s param =
  (fold_left (fun scriptName placeholder => replace scriptName placeholder v)
             (execAll (name s)) (name s),
   map (fun placeholder => mkSub placeholder v) (execAll (name s))).
Proof.
  intros Hv Hne. unfold substituteName. rewrite Hv.
  assert (Ht : truthy (Some v) = true) by (destruct v; [contradiction | reflexivity]).
  rewrite Ht.
  assert (H : forall l n acc,
             fold_left
               (fun (acc : string * list Substitution) (placeholder : string) =>
                  let '(scriptName, substitutions) := acc in
                  (replace scriptName placeholder v,
                   (substitutions ++ [mkSub placeholder v])%list))
               l (n, acc) =
             (fold_left (fun scriptName placeholder => replace scriptName placeholder v) l n,
              (acc ++ map (fun placeholder => mkSub placeholder v) l)%list)).
  { induction l as [| p l IH]; intros n acc.
    - cbn. now rewrite app_nil_r.
    - cbn [fold_left map]. rewrite IH. now rewrite <- app_assoc. }
  apply H.
Qed.

Lemma substituteName_no_placeholder (s : Script) (param : string) :
  execAll (name s) = [] -> substituteName s param = (name s, []).
Proof. unfold substituteName. now intros ->. Qed.

Lemma matchPattern_Some (s : Script) (param : string) (found : ProcessedScript) :
  matchPattern s param = Some found ->
  found = mkProcessed s (snd (substituteName s param)) /\
  fst (substituteName s param) = param.
Proof.
  unfold matchPattern. destruct (substituteName s param) as [scriptName subs].
  destruct (String.eqb scriptName param) eqn:E; [| discriminate].
  intros H. injection H as <-. apply String.eqb_eq in E. now split.
Qed.

Lemma findByPattern_Some (scripts : list Script) (param : string) found :
  findByPattern scripts param = Some found ->
  exists s, In s scripts /\ matchPattern s param = Some found.
Proof.
  induction scripts as [| s scripts IH]; [discriminate |].
  cbn. destruct (matchPattern s param) eqn:E.
  - intros H. injection H as <-. exists s. split; [now left | exact E].
  - intros H. destruct (IH H) as (t & Ht & Hm). exists t. split; [now right | exact Hm].
Qed.

Lemma findByPattern_None (scripts : list Script) (param : string) :
  findByPattern scripts param = None <->
  forall s, In s scripts -> matchPattern s param = None.
Proof.
  induction scripts as [| s scripts IH]; cbn.
  - split; [intros _ s [] | reflexivity].
  - destruct (matchPattern s param) eqn:E.
    + split; [discriminate |]. intros H. specialize (H s (or_introl eq_refl)).
      congruence.
    + rewrite IH. split.
      * intros H t [<- | Ht]; [exact E | now apply H].
      * intros H t Ht. apply H. now right.
Qed.

(** A template that is not found by its exact name is not found by the
    loop either unless its name holds a placeholder. *)
Lemma matchPattern_plain (s : Script) (param : string) :
  execAll (name s) = [] ->
  matchPattern s param =
  if String.eqb (name s) param then Some (mkProcessed s []) else None.
Proof.
  intros H. unfold matchPattern. now rewrite (substituteName_no_placeholder _ _ H).
Qed.

Lemma split_no_separator (sep : ascii) (s : string) :
  ~ In sep (list_ascii_of_string s) -> split sep s = [s].
Proof.
  induction s as [| c s IH]; intros H; [reflexivity |].
  cbn in *. destruct (Ascii.eqb c sep) eqn:E.
  - apply Ascii.eqb_eq in E. contradiction H. now left.
  - rewrite IH; [reflexivity |]. intros Hin. apply H. now right.
Qed.


(* ================================================================== *)
(** ** The resolver: exact names first *)
(* ================================================================== *)

(** C5.  When some template carries the requested name verbatim, the
    resolver returns the first such template with an empty binding list,
    whatever stands before it in the registry (also a parameterized
    template that the request would match); and a template whose name
    holds no placeholder is only ever returned for its exact name, with no
    binding. *)
Theorem C5_exact_match_first :
  (forall (before : list Script) (s : Script) (after : list Script),
      (forall t, In t before -> name t <> name s) ->
      findMatchingScript (before ++ s :: after)%list (name s) = Ok (mkProcessed s [])) /\
  (forall scripts param,
      (exists s, In s scripts /\ name s = param) ->
      exists s, In s scripts /\ name s = param /\
                findMatchingScript scripts param = Ok (mkProcessed s [])) /\
  (forall scripts param found,
      findMatchingScript scripts param = Ok found ->
      execAll (name (script found)) = [] ->
      name (script found) = param /\ substitutions found = []) /\
  findMatchingScript Examples.registryShadow "deploy:prod"
  = Ok (mkProcessed Examples.deployProd []).
Proof.
  repeat split.
  - intros before s after Hb. unfold findMatchingScript.
    rewrite (find_first (fun t => String.eqb (name t) (name s)) before s after).
    + reflexivity.
    + intros t Ht. apply String.eqb_neq. now apply Hb.
    + apply String.eqb_refl.
  - intros scripts param (s & Hs & Hn). unfold findMatchingScript.
    destruct (find (fun t => String.eqb (name t) param) scripts) as [t |] eqn:E.
    + apply find_some in E as [Ht Et]. apply String.eqb_eq in Et.
      exists t. repeat split; assumption.
    + apply (find_none _ _ E) in Hs. apply String.eqb_neq in Hs. contradiction.
  - revert H. unfold findMatchingScript.
    destruct (find (fun t => String.eqb (name t) param) scripts) as [t |] eqn:E.
    + intros H. injection H as <-. apply find_some in E as [_ Et].
      now apply String.eqb_eq in Et.
    + destruct (findByPattern scripts param) as [f |] eqn:Ef; [| discriminate].
      intros H. injection H as <-.
      apply findByPattern_Some in Ef as (s & _ & Hm).
      pose proof (matchPattern_Some _ _ _ Hm) as [-> Hn]. cbn in H0.
      rewrite (substituteName_no_placeholder _ _ H0) in Hn. exact Hn.
  - revert H. unfold findMatchingScript.
    destruct (find (fun t => String.eqb (name t) param) scripts) as [t |] eqn:E.
    + intros H. now injection H as <-.
    + destruct (findByPattern scripts param) as [f |] eqn:Ef; [| discriminate].
      intros H. injection H as <-.
      apply findByPattern_Some in Ef as (s & _ & Hm).
      pose proof (matchPattern_Some _ _ _ Hm) as [-> Hn]. cbn in H0 |- *.
      now rewrite (substituteName_no_placeholder _ _ H0).
Qed.

(** C10.  A requested name without [':'] yields no parameter value, so
    the loop over the templates replaces nothing and records nothing and,
    reached when no template carries the requested name, matches no
    template: the resolver returns the first template whose name is the
    requested one, with no binding, and throws when there is none. *)
Theorem C10_no_colon_exact_only (scripts : list Script) (param : string) :
  ~ In ":"%char (list_ascii_of_string param) ->
  (forall s, substituteName s param = (name s, [])) /\
  (forall s, matchPattern s param =
             if String.eqb (name s) param then Some (mkProcessed s []) else None) /\
  (find (fun s => String.eqb (name s) param) scripts = None ->
   findByPattern scripts param = None) /\
  findMatchingScript scripts param =
    match find (fun s => String.eqb (name s) param) scripts with
    | Some s => Ok (mkProcessed s [])
    | None => Err (JsError ("No script found for " ++ param))
    end /\
  (forall found, findMatchingScript scripts param = Ok found ->
                 name (script found) = param /\ substitutions found = []).
Proof.
  intros Hcolon.
  assert (Hsub : forall s, substituteName s param = (name s, [])).
  { intros s. apply substituteName_no_value.
    now rewrite (split_no_separator _ _ Hcolon). }
  assert (Hmatch : forall s, matchPattern s param =
             if String.eqb (name s) param then Some (mkProcessed s []) else None).
  { intros s. unfold matchPattern. now rewrite Hsub. }
  assert (Hloop : find (fun s => String.eqb (name s) param) scripts = None ->
                  findByPattern scripts param = None).
  { intros E. apply findByPattern_None. intros s Hs. rewrite Hmatch.
    now rewrite (find_none _ _ E s Hs). }
  assert (Hfind : findMatchingScript scripts param =
    match find (fun s => String.eqb (name s) param) scripts with
    | Some s => Ok (mkProcessed s [])
    | None => Err (JsError ("No script found for " ++ param))
    end).
  { unfold findMatchingScript.
    destruct (find (fun s => String.eqb (name s) param) scripts) eqn:E; [reflexivity |].
    now rewrite (Hloop eq_refl). }
  repeat split; auto.
  - rewrite Hfind in H.
    destruct (find (fun s => String.eqb (name s) param) scripts) eqn:E; [| discriminate].
    injection H as <-. apply find_some in E as [_ E]. now apply String.eqb_eq in E.
  - rewrite Hfind in H.
    destruct (find (fun s => String.eqb (name s) param) scripts) eqn:E; [| discriminate].
    now injection H as <-.
Qed.

Lemma C10_no_colon_witness :
  findMatchingScript Examples.registry "deploy"
  = Err (JsError "No script found for deploy") /\
  matchPattern Examples.deploy "deploy" = None.
Proof.
  assert (H : ~ In ":"%char (list_ascii_of_string "deploy")).
  { cbn. intros [H | [H | [H | [H | [H | [H | []]]]]]]; discriminate. }
  destruct (C10_no_colon_exact_only Examples.registry "deploy" H) as (_ & Hm & _ & Hf & _).
  split; [exact Hf | exact (Hm Examples.deploy)].
Defined.

(** A template whose name holds a placeholder, requested by that name:
    the name holds no [':'], the exact search finds the template, and the
    resolver returns it with no binding. *)
Lemma C10_placeholder_name_requested_verbatim :
  execAll (name Examples.bare) = ["${a}"] /\
  split ":" "x${a}" = ["x${a}"] /\
  findMatchingScript Examples.registryBare "x${a}" = Ok (mkProcessed Examples.bare []) /\
  option_map (map (fun s => (step_script s, step_command s)))
             (planOf (buildPlan Examples.registryBare Examples.args Examples.literalMatch 1
                                "x${a}"))
  = Some [("x${a}", "echo x")].
Proof. repeat split; reflexivity. Qed.

(* ================================================================== *)
(** ** The skip filter *)
(* ================================================================== *)

(** C7.  The skip filter answers [true] on a script name and a command
    text exactly when some pattern of the list matches one of the two;
    with no pattern it answers [false]; and the flag of every step of a
    plan is the filter's answer on the step's own script name and command
    text under the patterns of the command line: a step is flagged exactly
    when one of these patterns matches its script name or its command
    text, and never when no pattern is given. *)
Theorem C7_skip_filter
        (scripts : list Script) (argv : CLIArgs) (minimatch : string -> string -> bool) :
  (forall nm cmd patterns,
      matchGlobPatterns minimatch [nm; cmd] patterns = true <->
      exists pattern, In pattern patterns /\
                      (minimatch nm pattern = true \/ minimatch cmd pattern = true)) /\
  (forall items, matchGlobPatterns minimatch items [] = false) /\
  (forall fuel nm commandToRun subs ph lvl st out st',
      startsWith commandToRun bnrunPrefix = false ->
      runCommand scripts argv minimatch fuel nm commandToRun subs ph lvl st = Ok (out, st') ->
      out = [mkStep nm ph (substituteCommand subs commandToRun)
                    (matchGlobPatterns minimatch
                       [nm; substituteCommand subs commandToRun] (orEmpty (skip argv)))]) /\
  (forall fuel ps ph lvl st out st',
      executeScript scripts argv minimatch fuel ps ph lvl [] st = Ok (out, st') ->
      Forall (fun s => step_skip s =
                       matchGlobPatterns minimatch [step_script s; step_command s]
                                         (orEmpty (skip argv))) out) /\
  (forall fuel ps ph lvl st out st' s,
      executeScript scripts argv minimatch fuel ps ph lvl [] st = Ok (out, st') ->
      In s out ->
      (step_skip s = true <->
       exists pattern,
         In pattern (orEmpty (skip argv)) /\
         (minimatch (step_script s) pattern = true \/
          minimatch (step_command s) pattern = true)) /\
      (skip argv = None \/ skip argv = Some [] -> step_skip s = false)).
Proof.
  assert (Hiff : forall nm cmd patterns,
      matchGlobPatterns minimatch [nm; cmd] patterns = true <->
      exists pattern, In pattern patterns /\
                      (minimatch nm pattern = true \/ minimatch cmd pattern = true)).
  { intros nm cmd patterns. split.
    - intros H. apply matchGlobPatterns_true_iff in H as (item & pattern & Hi & Hp & Hm).
      exists pattern. split; [exact Hp |].
      destruct Hi as [<- | [<- | []]]; auto.
    - intros (pattern & Hp & [Hm | Hm]); apply matchGlobPatterns_true_iff.
      + exists nm, pattern. cbn. auto.
      + exists cmd, pattern. cbn. auto. }
  assert (Hnil : forall items, matchGlobPatterns minimatch items [] = false).
  { intros items. unfold matchGlobPatterns.
    induction items as [| i items IH]; [reflexivity | exact IH]. }
  assert (Hall : forall fuel ps ph lvl st out st',
      executeScript scripts argv minimatch fuel ps ph lvl [] st = Ok (out, st') ->
      Forall (fun s => step_skip s =
                       matchGlobPatterns minimatch [step_script s; step_command s]
                                         (orEmpty (skip argv))) out).
  { intros fuel ps ph lvl st out st' H.
    apply (executeScript_skipFiltered scripts argv minimatch fuel _ _ _ _ _ _ _ H).
    constructor. }
  split; [exact Hiff |]. split; [exact Hnil |]. split; [| split; [exact Hall |]].
  2: { intros fuel ps ph lvl st out st' s H Hin.
       pose proof (Hall _ _ _ _ _ _ _ H) as HF. rewrite Forall_forall in HF.
       specialize (HF s Hin). cbv beta in HF. rewrite HF. split; [apply Hiff |].
       intros [E | E]; rewrite E; apply Hnil. }
  intros fuel nm commandToRun subs ph lvl st out st' Hstart.
  unfold runCommand, runCommand_. rewrite Hstart. cbv zeta.
  rewrite (bind_Ok _ _ _ _ _ (log_run argv _ _ _)). unfold ret.
  intros H. now injection H as <- _.
Qed.

(* ================================================================== *)
(** ** Phase eligibility and the run-once ledger *)
(* ================================================================== *)


(* ================================================================== *)
(** ** Order of the flattened plan *)
(* ================================================================== *)

(** C2.  A call of the plan builder returns exactly the steps of its pre
    phase (when the phase is due), then those of its command phase, then
    those of its post phase (when due); within a phase the steps of the
    command templates follow each other in declared order, the steps of a
    nested self-invocation standing where its command stands.  With the
    registry of [build], [deploy:${env}] and [all], the plan of [all] is
    [(Command, "echo A"); (Pre, "echo setup"); (Command, "echo deploy prod")]
    at every depth of three calls or more. *)
Theorem C2_phase_order :
  (forall scripts argv minimatch fuel ps ph lvl st out st',
      executeScript scripts argv minimatch (S fuel) ps ph lvl [] st = Ok (out, st') <->
      exists preSteps commandSteps postSteps st1 st2 st3,
        let st0 := logged argv (scriptLogPrefix ph ++ " " ++ displayName ps) lvl st in
        let rc := runCommand scripts argv minimatch fuel in
        let s := script ps in
        Spliced rc (displayName ps) (substitutions ps) PRE lvl
                (if shouldExecutePre (scriptsRan st0) s then orEmpty (pre s) else [])
                st0 preSteps st1 /\
        Spliced rc (displayName ps) (substitutions ps) COMMAND lvl
                (command s) st1 commandSteps st2 /\
        Spliced rc (displayName ps) (substitutions ps) POST lvl
                (if shouldExecutePost (scriptsRan st2) s then orEmpty (post s) else [])
                st2 postSteps st3 /\
        out = (preSteps ++ commandSteps ++ postSteps)%list /\
        st' = mkState (scriptsRan st3 ++ [name s])%list (console st3)) /\
  (forall argv minimatch fuel,
      3 <= fuel ->
      option_map (map (fun s => (step_phase s, step_command s)))
                 (planOf (buildPlan Examples.registryAll argv minimatch fuel "all"))
      = Some [(COMMAND, "echo A"); (PRE, "echo setup"); (COMMAND, "echo deploy prod")]).
Proof.
  split.
  - intros scripts argv minimatch fuel ps ph lvl st out st'.
    rewrite executeScript_unfold, executePhases_Ok_iff. cbv zeta.
    split.
    + intros (preS & cmdS & postS & st1 & st2 & st3 & Hpre & Hcmd & Hpost & -> & ->).
      exists preS, cmdS, postS, st1, st2, st3.
      apply phaseIf_Spliced in Hpre. apply phaseIf_nonempty_Spliced in Hcmd.
      apply phaseIf_Spliced in Hpost. auto.
    + intros (preS & cmdS & postS & st1 & st2 & st3 & Hpre & Hcmd & Hpost & -> & ->).
      exists preS, cmdS, postS, st1, st2, st3.
      apply phaseIf_Spliced in Hpre. apply phaseIf_nonempty_Spliced in Hcmd.
      apply phaseIf_Spliced in Hpost. auto.
  - intros argv minimatch fuel Hfuel.
    assert (H3 : option_map (map (fun s => (step_phase s, step_command s)))
                   (planOf (buildPlan Examples.registryAll argv minimatch 3 "all"))
                 = Some [(COMMAND, "echo A"); (PRE, "echo setup");
                         (COMMAND, "echo deploy prod")]).
    { destruct argv as [dir [|] dry sk pos]; vm_compute; reflexivity. }
    rewrite (buildPlan_mono Examples.registryAll argv minimatch 3 fuel "all" Hfuel);
      [exact H3 |].
    intros E. rewrite E in H3. discriminate.
Qed.

(* ================================================================== *)
(** ** Run-once *)
(* ================================================================== *)

(** C1.  Take a template whose pre phase is configured run-once and two
    expansions of it in one pass, the second starting from a state of the
    pass no earlier than the return of the first.  The steps the first
    returns, when its pre list is not empty and the ledger it starts from
    does not hold the template name, are the steps of its pre commands,
    then those of its command list, then those of its post phase.  The
    steps the second returns are those of its command list, then those of
    its post phase: the second expansion adds no pre step. *)
Theorem C1_run_once_sequential
        (scripts : list Script) (argv : CLIArgs) (minimatch : string -> string -> bool)
        (first second : ProcessedScript) (fuel1 : nat) (ph1 : Phase) (lvl1 : nat)
        (st : State) (out1 : list PlanStep) (st1 : State) :
  runOncePre (script first) ->
  script second = script first ->
  executeScript scripts argv minimatch (S fuel1) first ph1 lvl1 [] st = Ok (out1, st1) ->
  (orEmpty (pre (script first)) <> [] ->
   ~ In (name (script first)) (scriptsRan st) ->
   exists preSteps commandSteps postSteps sa sb sc,
     let st0 := logged argv (scriptLogPrefix ph1 ++ " " ++ displayName first) lvl1 st in
     let rc := runCommand scripts argv minimatch fuel1 in
     let s := script first in
     Spliced rc (displayName first) (substitutions first) PRE lvl1
             (orEmpty (pre s)) st0 preSteps sa /\
     Spliced rc (displayName first) (substitutions first) COMMAND lvl1
             (command s) sa commandSteps sb /\
     Spliced rc (displayName first) (substitutions first) POST lvl1
             (if shouldExecutePost (scriptsRan sb) s then orEmpty (post s) else [])
             sb postSteps sc /\
     out1 = (preSteps ++ commandSteps ++ postSteps)%list /\
     st1 = mkState (scriptsRan sc ++ [name s])%list (console sc)) /\
  (forall st2, extends st1 st2 ->
   forall fuel2 ph2 lvl2 out2 st2',
     executeScript scripts argv minimatch (S fuel2) second ph2 lvl2 [] st2 = Ok (out2, st2') <->
     exists commandSteps postSteps sb sc,
       let st0 := logged argv (scriptLogPrefix ph2 ++ " " ++ displayName second) lvl2 st2 in
       let rc := runCommand scripts argv minimatch fuel2 in
       let s := script second in
       Spliced rc (displayName second) (substitutions second) COMMAND lvl2
               (command s) st0 commandSteps sb /\
       Spliced rc (displayName second) (substitutions second) POST lvl2
               (if shouldExecutePost (scriptsRan sb) s then orEmpty (post s) else [])
               sb postSteps sc /\
       out2 = (commandSteps ++ postSteps)%list /\
       st2' = mkState (scriptsRan sc ++ [name s])%list (console sc)).
Proof.
  intros Hro Hsame Hfirst. split.
  - intros Hpre Hnot.
    apply executeScript_Ok_Spliced in Hfirst. cbv zeta in Hfirst.
    destruct Hfirst as (preS & cmdS & postS & sa & sb & sc & H1 & H2 & H3 & Hout & Hst).
    assert (Hyes : shouldExecutePre
                     (scriptsRan (logged argv (scriptLogPrefix ph1 ++ " " ++ displayName first)
                                         lvl1 st))
                     (script first) = true).
    { apply shouldExecutePre_iff. split; [exact Hpre | right].
      now rewrite logged_scriptsRan. }
    rewrite Hyes in H1.
    exists preS, cmdS, postS, sa, sb, sc. cbv zeta. auto.
  - intros st2 Hext fuel2 ph2 lvl2 out2 st2'.
    assert (Hno : shouldExecutePre
                    (scriptsRan (logged argv (scriptLogPrefix ph2 ++ " " ++ displayName second)
                                        lvl2 st2))
                    (script second) = false).
    { rewrite logged_scriptsRan, Hsame. apply shouldExecutePre_run_once; [exact Hro |].
      apply (extends_includes st1 st2 _ Hext).
      exact (executeScript_marks _ _ _ _ _ _ _ _ _ _ _ Hfirst). }
    rewrite executeScript_Ok_Spliced. cbv zeta. rewrite Hno.
    split.
    + intros (preS & cmdS & postS & sa & sb & sc & H1 & H2 & H3 & -> & ->).
      apply Spliced_nil_inv in H1 as [-> ->].
      exists cmdS, postS, sb, sc. auto.
    + intros (cmdS & postS & sb & sc & H2 & H3 & -> & ->).
      eexists [], cmdS, postS, _, sb, sc.
      split; [constructor |]. auto.
Qed.

Lemma C1_run_once_sequential_witness :
  planOf (buildPlan Examples.registryOnce Examples.args Examples.literalMatch 3 "build-all")
  = Some [mkStep "build:a" PRE "echo lint" false;
          mkStep "build:a" COMMAND "echo build a" false;
          mkStep "build:b" COMMAND "echo build b" false] /\
  executeScript Examples.registryOnce Examples.args Examples.literalMatch 2
                (mkProcessed Examples.buildProject [mkSub "${project}" "b"]) COMMAND 1 []
                (mkState ["build:${project}"] [])
  = Ok ([mkStep "build:b" COMMAND "echo build b" false],
        mkState ["build:${project}"; "build:${project}"] []).
Proof.
  split; [reflexivity |].
  assert (Hro : runOncePre Examples.buildProject).
  { eexists. split; reflexivity. }
  pose proof (C1_run_once_sequential
                Examples.registryOnce Examples.args Examples.literalMatch
                (mkProcessed Examples.buildProject [mkSub "${project}" "a"])
                (mkProcessed Examples.buildProject [mkSub "${project}" "b"])
                1 COMMAND 1 initialState _ _ Hro eq_refl eq_refl) as [_ H].
  apply (H (mkState ["build:${project}"] []) (extends_refl _) 1 COMMAND 1).
  exists [mkStep "build:b" COMMAND "echo build b" false], [],
         (mkState ["build:${project}"] []), (mkState ["build:${project}"] []).
  cbv zeta. split; [| split; [| split; reflexivity]].
  - eapply (Spliced_cons _ _ _ _ _ _ _ _
                         [mkStep "build:b" COMMAND "echo build b" false] _ [] _).
    2: apply Spliced_nil.
    reflexivity.
  - apply Spliced_nil.
Defined.

(** A second expansion that starts inside the first.  The template
    [t:${p}] has a run-once pre phase and the command [bnrun ${p}];
    [inner] invokes [t:leaf].  Requesting [t:inner] expands the template,
    then [inner], then the template again for [t:leaf]: the first
    expansion has not returned, the ledger does not hold the template name
    yet, and the pre step stands in the plan twice. *)
Lemma C1_nested_expansion_repeats_pre :
  config Examples.task = Some (mkOptions (Some run_once) None None None) /\
  findMatchingScript Examples.registryNested "t:inner"
  = Ok (mkProcessed Examples.task [mkSub "${p}" "inner"]) /\
  findMatchingScript Examples.registryNested "t:leaf"
  = Ok (mkProcessed Examples.task [mkSub "${p}" "leaf"]) /\
  buildPlan Examples.registryNested Examples.args Examples.literalMatch 4 "t:inner"
  = Ok ([mkStep "t:inner" PRE "echo pre" false;
         mkStep "t:leaf" PRE "echo pre" false;
         mkStep "leaf" COMMAND "echo leaf" false],
        mkState ["leaf"; "t:${p}"; "inner"; "t:${p}"] []).
Proof. repeat split; reflexivity. Qed.

(* ================================================================== *)
(** ** Facts about strings *)
(* ================================================================== *)

Lemma append_assoc (a b c : string) : ((a ++ b) ++ c = a ++ (b ++ c))%string.
Proof. induction a as [| x a IH]; cbn; [reflexivity | now rewrite IH]. Qed.

Lemma append_empty_r (a : string) : (a ++ EmptyString = a)%string.
Proof. induction a as [| x a IH]; cbn; [reflexivity | now rewrite IH]. Qed.

Lemma prefix_append (p s : string) :
  String.prefix p s = true <-> exists r, s = (p ++ r)%string.
Proof.
  revert s. induction p as [| a p IH]; intros s.
  - split; [intros _; now exists s | intros _; now destruct s].
  - destruct s as [| b s]; cbn.
    + split; [discriminate | intros [r H]; discriminate].
    + destruct (ascii_dec a b) as [<- | Hab].
      * rewrite IH. split; intros [r H]; exists r; congruence.
      * split; [discriminate | intros [r H]; congruence].
Qed.

Lemma prefix_head_differs (a : ascii) (p : string) (b : ascii) (s : string) :
  a <> b -> String.prefix (String a p) (String b s) = false.
Proof. intros H. cbn. now destruct (ascii_dec a b). Qed.

Lemma free_of_cons (c x : ascii) (s : string) :
  free_of c (String x s) <-> x <> c /\ free_of c s.
Proof. unfold free_of. cbn. tauto. Qed.

(** [replaceAll] passes over a stretch in which the first code unit of
    the search string does not occur. *)
Lemma replaceAllFrom_skips (a : ascii) (pat rep : string) (pre : string) :
  free_of a pre ->
  forall before s,
    replaceAllFrom (String a pat) rep 0 before (pre ++ s) =
    (pre ++ replaceAllFrom (String a pat) rep 0 (before ++ pre) s)%string.
Proof.
  induction pre as [| c pre IH]; intros Hfree before s.
  - cbn. now rewrite append_empty_r.
  - apply free_of_cons in Hfree as [Hc Hfree].
    cbn [append]. cbn [replaceAllFrom].
    rewrite prefix_head_differs by congruence.
    rewrite (IH Hfree). now rewrite append_assoc.
Qed.

Lemma replaceAll_keeps_prefix (a : ascii) (pat rep pre s : string) :
  free_of a pre ->
  exists s', replaceAll (pre ++ s) (String a pat) rep = (pre ++ s')%string.
Proof.
  intros H. unfold replaceAll. rewrite (replaceAllFrom_skips _ _ _ _ H). eauto.
Qed.

(** Every match of the placeholder expression is a dollar sign, a brace,
    a word and a brace. *)
Lemma matchPlaceholderAt_shape (s p : string) :
  matchPlaceholderAt s = Some p -> exists w, p = ("${" ++ w ++ "}")%string.
Proof.
  unfold matchPlaceholderAt.
  destruct s as [| a [| b r]]; try discriminate.
  destruct (Ascii.eqb a "$" && Ascii.eqb b "{"); [| discriminate].
  destruct (takeWord r) as [| c w]; [discriminate |].
  destruct (String.prefix "}" _); [| discriminate].
  intros H. injection H as <-. now exists (String c w).
Qed.

Lemma execAllFrom_shape (s : string) :
  forall skip p, In p (execAllFrom skip s) -> exists w, p = ("${" ++ w ++ "}")%string.
Proof.
  induction s as [| c s IH]; intros skip p; cbn [execAllFrom]; [intros [] |].
  destruct skip as [| k]; [| apply IH].
  destruct (matchPlaceholderAt (String c s)) as [q |] eqn:E; [| apply IH].
  intros [<- | H]; [eapply matchPlaceholderAt_shape; eassumption | eapply IH; eassumption].
Qed.

(** The bindings the resolver returns all replace a placeholder. *)
Lemma findMatchingScript_params (scripts : list Script) (param : string) found :
  findMatchingScript scripts param = Ok found ->
  forall sub, In sub (substitutions found) ->
              exists w, sub_param sub = ("${" ++ w ++ "}")%string.
Proof.
  unfold findMatchingScript.
  destruct (find _ scripts) as [t |].
  - intros H. injection H as <-. intros sub [].
  - destruct (findByPattern scripts param) as [f |] eqn:E; [| discriminate].
    intros H. injection H as <-.
    apply findByPattern_Some in E as (s & _ & Hm).
    apply matchPattern_Some in Hm as [-> _]. cbn [substitutions].
    destruct (nth_error (split ":" param) 1) as [v |] eqn:Ev.
    + destruct (string_dec v EmptyString) as [-> | Hne].
      * rewrite substituteName_no_value by now rewrite Ev. intros sub [].
      * rewrite (substituteName_value s param v Ev Hne). cbn [snd].
        intros sub Hin. apply in_map_iff in Hin as (p & <- & Hp).
        cbn. eapply execAllFrom_shape. exact Hp.
    + rewrite substituteName_no_value by now rewrite Ev. intros sub [].
Qed.

(** Substituting placeholders leaves the self-invocation marker at the
    head of a command template in place. *)
Lemma substituteCommand_keeps_marker (subs : list Substitution) (commandToRun : string) :
  (forall sub, In sub subs -> exists w, sub_param sub = ("${" ++ w ++ "}")%string) ->
  startsWith commandToRun bnrunPrefix = true ->
  startsWith (substituteCommand subs commandToRun) bnrunPrefix = true.
Proof.
  unfold startsWith, substituteCommand. revert commandToRun.
  induction subs as [| sub subs IH]; intros c Hsubs Hstart; [exact Hstart |].
  cbn [fold_left]. apply IH; [intros; apply Hsubs; now right |].
  apply prefix_append in Hstart as [r ->].
  destruct (Hsubs sub (or_introl eq_refl)) as [w ->].
  apply prefix_append.
  apply (replaceAll_keeps_prefix "$" ("{" ++ w ++ "}") (sub_value sub) bnrunPrefix r).
  unfold free_of. cbn.
  intros [H | [H | [H | [H | [H | [H | []]]]]]]; discriminate.
Qed.

(* ================================================================== *)
(** ** Self-invocation *)
(* ================================================================== *)

(** C3 (as the program has it).  [runCommand] looks for the marker
    ["bnrun "] at the head of the command template as written, before
    substitution.  When it is there, the rest of the substituted command
    is resolved and the nested script is built with the same phase
    argument and level, its steps being the result; the resolver's error
    is the result when the name is unknown.  When it is not there, the
    result is exactly one step with the script name handed in, the current
    phase, the substituted command and the skip flag.  Bindings that
    replace placeholders keep a marker of the template at the head of the
    substituted command. *)
Theorem C3_self_invocation_marker
        (scripts : list Script) (argv : CLIArgs) (minimatch : string -> string -> bool)
        (fuel : nat) (nm commandToRun : string) (subs : list Substitution)
        (ph : Phase) (lvl : nat) (st : State) :
  let command := substituteCommand subs commandToRun in
  (startsWith commandToRun bnrunPrefix = true ->
   runCommand scripts argv minimatch fuel nm commandToRun subs ph lvl st =
   match findMatchingScript scripts (drop (String.length bnrunPrefix) command) with
   | Ok found => executeScript scripts argv minimatch fuel found ph lvl [] st
   | Err e => Err e
   | OutOfFuel => OutOfFuel
   end) /\
  (startsWith commandToRun bnrunPrefix = false ->
   runCommand scripts argv minimatch fuel nm commandToRun subs ph lvl st =
   Ok ([mkStep nm ph command
               (matchGlobPatterns minimatch [nm; command] (orEmpty (skip argv)))],
       logged argv (commandLogPrefix ph ++ ": " ++ command) lvl st)) /\
  ((forall sub, In sub subs -> exists w, sub_param sub = ("${" ++ w ++ "}")%string) ->
   startsWith commandToRun bnrunPrefix = true ->
   startsWith command bnrunPrefix = true).
Proof.
  cbv zeta. repeat split.
  - intros H. unfold runCommand, runCommand_. rewrite H. cbv zeta.
    unfold bind, lift. now destruct (findMatchingScript scripts _).
  - intros H. unfold runCommand, runCommand_. rewrite H. cbv zeta.
    now rewrite (bind_Ok _ _ _ _ _ (log_run argv _ _ _)).
  - apply substituteCommand_keeps_marker.
Qed.

(** The template ["${tool} build"] of [run:${tool}], requested as
    [run:bnrun]: the substituted command is ["bnrun build"], which starts
    with the marker and names the registered script [build], and the
    builder emits it as one step. *)
Lemma C3_substituted_marker_is_one_step :
  findMatchingScript Examples.registryTool "run:bnrun"
  = Ok (mkProcessed Examples.runTool [mkSub "${tool}" "bnrun"]) /\
  substituteCommand [mkSub "${tool}" "bnrun"] "${tool} build" = "bnrun build" /\
  startsWith "bnrun build" bnrunPrefix = true /\
  findMatchingScript Examples.registryTool "build" = Ok (mkProcessed Examples.build []) /\
  runCommand Examples.registryTool Examples.args Examples.literalMatch 5
             "run:bnrun" "${tool} build" [mkSub "${tool}" "bnrun"] COMMAND 1 initialState
  = Ok ([mkStep "run:bnrun" COMMAND "bnrun build" false], initialState) /\
  planOf (buildPlan Examples.registryTool Examples.args Examples.literalMatch 5 "run:bnrun")
  = Some [mkStep "run:bnrun" COMMAND "bnrun build" false] /\
  planOf (buildPlan Examples.registryTool Examples.args Examples.literalMatch 5 "build")
  = Some [mkStep "build" COMMAND "echo A" false].
Proof. repeat split; reflexivity. Qed.

(* ================================================================== *)
(** ** Loading *)
(* ================================================================== *)

(** C8 (as the program has it).  Loading a file throws, with the message
    ["Invalid script file"], exactly when the parsed data is not of type
    object; data of type object is returned as it is.  The entries are not
    looked at: a directory of files that each hold an object loads, one
    script per entry, whatever the entries hold.  A script with an empty
    command list adds no step for its command phase: what a call on it
    returns is the steps of its pre phase followed by those of its post
    phase, and the empty plan when it has neither list. *)
Theorem C8_loader_checks_type_only :
  (forall parsed,
      Loader.loadScriptFile parsed = Err (JsError "Invalid script file") <->
      Loader.typeof parsed <> "object") /\
  (forall parsed,
      Loader.typeof parsed = "object" -> Loader.loadScriptFile parsed = Ok parsed) /\
  (forall files,
      (forall f, In f files -> exists props, f = Loader.JObject props) ->
      exists entries,
        Loader.loadScripts files = Ok entries /\
        List.length entries = List.length (flat_map Loader.ownProps files)) /\
  (forall scripts argv minimatch fuel ps ph lvl st out st',
      command (script ps) = [] ->
      (executeScript scripts argv minimatch (S fuel) ps ph lvl [] st = Ok (out, st') <->
       exists preSteps postSteps st1 st3,
         let st0 := logged argv (scriptLogPrefix ph ++ " " ++ displayName ps) lvl st in
         let rc := runCommand scripts argv minimatch fuel in
         let s := script ps in
         Spliced rc (displayName ps) (substitutions ps) PRE lvl
                 (if shouldExecutePre (scriptsRan st0) s then orEmpty (pre s) else [])
                 st0 preSteps st1 /\
         Spliced rc (displayName ps) (substitutions ps) POST lvl
                 (if shouldExecutePost (scriptsRan st1) s then orEmpty (post s) else [])
                 st1 postSteps st3 /\
         out = (preSteps ++ postSteps)%list /\
         st' = mkState (scriptsRan st3 ++ [name s])%list (console st3))) /\
  (forall scripts argv minimatch fuel nm ph lvl st,
      planOf (executeScript scripts argv minimatch (S fuel)
                            (mkProcessed (mkScript nm None None [] None) []) ph lvl [] st)
      = Some []).
Proof.
  split; [| split; [| split; [| split]]].
  - intros parsed. split; destruct parsed; cbn; intros H; congruence.
  - intros parsed H. destruct parsed; cbn in *; congruence.
  - intros files. induction files as [| f files IH]; intros Hobj.
    + now exists [].
    + destruct (Hobj f (or_introl eq_refl)) as [props ->].
      destruct IH as (entries & Hload & Hlen); [intros; apply Hobj; now right |].
      cbn [Loader.loadScripts Loader.loadScriptFile Loader.isScriptsFile Loader.typeof
           Loader.objectKeys Loader.ownProps String.eqb negb flat_map].
      cbn. rewrite Hload. eexists. split; [reflexivity |].
      rewrite !length_app, Hlen. f_equal.
      unfold Loader.fileEntries. now rewrite !length_map.
  - intros scripts argv minimatch fuel ps ph lvl st out st' Hempty.
    rewrite executeScript_Ok_Spliced. cbv zeta. rewrite Hempty.
    split.
    + intros (preS & cmdS & postS & st1 & st2 & st3 & H1 & H2 & H3 & -> & ->).
      apply Spliced_nil_inv in H2 as [-> ->].
      exists preS, postS, st1, st3. auto.
    + intros (preS & postS & st1 & st3 & H1 & H3 & -> & ->).
      exists preS, [], postS, st1, st1, st3.
      split; [exact H1 |]. split; [constructor |]. auto.
  - intros scripts argv minimatch fuel nm ph lvl st.
    rewrite executeScript_unfold. unfold executePhases.
    rewrite (bind_Ok _ _ _ _ _ (log_run argv _ _ _)). reflexivity.
Qed.

(** Files whose entries lack a command list, hold an empty one, or that
    are no mapping at all, and what loading makes of them. *)
Lemma C8_entry_without_command_loads :
  Loader.loadScripts [Loader.JObject [("build", Loader.JObject [])]]
  = Ok [[("name", Loader.JString "build")]] /\
  Loader.loadScripts
    [Loader.JObject [("build", Loader.JObject [("command", Loader.JArray [])])]]
  = Ok [[("name", Loader.JString "build"); ("command", Loader.JArray [])]] /\
  Loader.loadScripts [Loader.JArray [Loader.JNumber "1"]]
  = Ok [[("name", Loader.JString "0")]] /\
  Loader.loadScriptFile Loader.JNull = Ok Loader.JNull.
Proof. repeat split; reflexivity. Qed.

(* ================================================================== *)
(** ** Pattern resolution *)
(* ================================================================== *)

(** C4, on the program.  Requesting [deploy:prod] yields the plan
    [(Pre, "echo setup"); (Command, "echo deploy prod")].  Requesting
    [a:$&] against the template [a:${x}]: the value is ["$&"], and
    [String.prototype.replace] reads ["$&"] in its second argument as the
    matched text, so the working copy stays ["a:${x}"]; it differs from
    the requested name and the resolver throws, although the template name
    with the value in the place of its placeholder is the requested
    name. *)
Theorem C4_pattern_resolution_on_code :
  (forall argv minimatch fuel,
      1 <= fuel ->
      option_map (map (fun s => (step_phase s, step_command s)))
                 (planOf (buildPlan Examples.registry argv minimatch fuel "deploy:prod"))
      = Some [(PRE, "echo setup"); (COMMAND, "echo deploy prod")]) /\
  findMatchingScript Examples.registry "deploy:prod"
  = Ok (mkProcessed Examples.deploy [mkSub "${env}" "prod"]) /\
  execAll (name Examples.echoParam) = ["${x}"] /\
  nth_error (split ":" "a:$&") 1 = Some "$&" /\
  instantiate "$&" (name Examples.echoParam) = "a:$&" /\
  substituteName Examples.echoParam "a:$&" = ("a:${x}", [mkSub "${x}" "$&"]) /\
  findMatchingScript Examples.registryParam "a:$&"
  = Err (JsError "No script found for a:$&").
Proof.
  split; [| repeat split; reflexivity].
  intros argv minimatch fuel Hfuel.
  assert (H1 : option_map (map (fun s => (step_phase s, step_command s)))
                 (planOf (buildPlan Examples.registry argv minimatch 1 "deploy:prod"))
               = Some [(PRE, "echo setup"); (COMMAND, "echo deploy prod")]).
  { destruct argv as [dir [|] dry sk pos]; vm_compute; reflexivity. }
  rewrite (buildPlan_mono Examples.registry argv minimatch 1 fuel "deploy:prod" Hfuel);
    [exact H1 |].
  intros E. rewrite E in H1. discriminate.
Qed.

(* ================================================================== *)
(** ** Pattern resolution with a value that holds no dollar sign *)
(* ================================================================== *)

Lemma free_of_append (c : ascii) (a b : string) :
  free_of c (a ++ b) <-> free_of c a /\ free_of c b.
Proof.
  induction a as [| x a IH]; cbn [append].
  - unfold free_of at 2. cbn. tauto.
  - rewrite !free_of_cons, IH. tauto.
Qed.

Lemma length_append (a b : string) :
  String.length (a ++ b) = String.length a + String.length b.
Proof. induction a as [| x a IH]; cbn; [reflexivity | now rewrite IH]. Qed.

Lemma drop_append (a b : string) : drop (String.length a) (a ++ b) = b.
Proof. induction a as [| x a IH]; cbn; [now destruct b | exact IH]. Qed.

(** A replacement string without dollar sign is taken as it is. *)
Lemma getSubstitution_literal (matched before after template : string) :
  free_of "$" template -> getSubstitution matched before after template = template.
Proof.
  induction template as [| a rest IH]; intros H; [reflexivity |].
  apply free_of_cons in H as [Ha Hrest]. cbn [getSubstitution].
  destruct rest as [| c t]; [reflexivity |].
  apply Ascii.eqb_neq in Ha. rewrite Ha. now rewrite (IH Hrest).
Qed.

(** [replace] finds its first occurrence behind a stretch in which the
    first code unit of the search string does not occur. *)
Lemma replaceFrom_first (a : ascii) (pat rep done rest : string) :
  free_of a done ->
  forall before,
    replaceFrom (String a pat) rep before (done ++ String a pat ++ rest) =
    (done ++ getSubstitution (String a pat) (before ++ done) rest rep ++ rest)%string.
Proof.
  induction done as [| c done IH]; intros Hfree before.
  - cbn [append]. cbn [replaceFrom].
    assert (Hp : String.prefix (String a pat) (String a (pat ++ rest)) = true).
    { apply prefix_append. now exists rest. }
    rewrite Hp, append_empty_r.
    change (String a (pat ++ rest)) with (String a pat ++ rest)%string.
    now rewrite drop_append.
  - apply free_of_cons in Hfree as [Hc Hfree].
    cbn [append]. cbn [replaceFrom].
    rewrite prefix_head_differs by congruence.
    rewrite (IH Hfree). now rewrite append_assoc.
Qed.

Lemma takeWord_drop (r : string) :
  r = (takeWord r ++ drop (String.length (takeWord r)) r)%string.
Proof.
  induction r as [| c r IH]; [reflexivity |].
  cbn [takeWord]. destruct (isWordChar c); [| reflexivity].
  cbn. now rewrite <- IH.
Qed.

(** A match of the placeholder expression at the head of [s] is a prefix
    of [s] and starts with a dollar sign. *)
Lemma matchPlaceholderAt_split (s p : string) :
  matchPlaceholderAt s = Some p ->
  exists p' rest, p = String "$" p' /\ s = (p ++ rest)%string.
Proof.
  unfold matchPlaceholderAt.
  destruct s as [| a [| b r]]; try discriminate.
  destruct (Ascii.eqb a "$") eqn:Ea; [| discriminate].
  destruct (Ascii.eqb b "{") eqn:Eb; [| discriminate].
  apply Ascii.eqb_eq in Ea, Eb. subst a b. cbn [andb].
  pose proof (takeWord_drop r) as Hr.
  destruct (takeWord r) as [| c w]; [discriminate |].
  destruct (String.prefix "}" (drop (String.length (String c w)) r)) eqn:E; [| discriminate].
  apply prefix_append in E as [rest E].
  intros H. injection H as <-.
  exists ("{" ++ String c w ++ "}")%string, rest. split; [reflexivity |].
  rewrite Hr at 1. rewrite E. cbn. now rewrite !append_assoc.
Qed.

Lemma execAllFrom_skip (x rest : string) :
  execAllFrom (String.length x) (x ++ rest) = execAllFrom 0 rest.
Proof.
  induction x as [| c x IH]; cbn; [now destruct rest | exact IH].
Qed.

Lemma instantiateFrom_skip (v x rest : string) :
  instantiateFrom v (String.length x) (x ++ rest) = instantiateFrom v 0 rest.
Proof.
  induction x as [| c x IH]; cbn; [now destruct rest | exact IH].
Qed.

Lemma dollarsOpenFrom_skip (x rest : string) :
  dollarsOpenFrom (String.length x) (x ++ rest) = dollarsOpenFrom 0 rest.
Proof.
  induction x as [| c x IH]; cbn; [now destruct rest | exact IH].
Qed.

(** With a value [v] that holds no dollar sign, and a name in which every
    dollar sign opens a placeholder, the replacements of the loop, each on
    the first occurrence in the working copy, write [v] in the place of
    every placeholder. *)
Lemma replace_loop_instantiates (v : string) :
  free_of "$" v ->
  forall n s done,
    String.length s <= n -> free_of "$" done -> dollarsOpenFrom 0 s = true ->
    fold_left (fun scriptName placeholder => replace scriptName placeholder v)
              (execAllFrom 0 s) (done ++ s)%string
    = (done ++ instantiateFrom v 0 s)%string.
Proof.
  intros Hv. induction n as [| n IH]; intros s done Hlen Hdone Hopen.
  - destruct s; [reflexivity | cbn in Hlen; lia].
  - destruct s as [| c s']; [reflexivity |].
    cbn [execAllFrom instantiateFrom dollarsOpenFrom] in *.
    destruct (matchPlaceholderAt (String c s')) as [p |] eqn:E.
    + destruct (matchPlaceholderAt_split _ _ E) as (p' & rest & -> & Hs).
      cbn [append] in Hs. injection Hs as -> ->.
      replace (String.length (String "$" p') - 1) with (String.length p') in *
        by (cbn [String.length]; lia).
      rewrite execAllFrom_skip, instantiateFrom_skip.
      rewrite dollarsOpenFrom_skip in Hopen.
      cbn [fold_left]. unfold replace at 2.
      change (String "$" (p' ++ rest)) with (String "$" p' ++ rest)%string.
      rewrite (replaceFrom_first "$" p' v done rest Hdone).
      rewrite (getSubstitution_literal _ _ _ _ Hv).
      rewrite <- append_assoc. rewrite IH.
      * now rewrite append_assoc.
      * cbn [String.length] in Hlen. rewrite length_append in Hlen. lia.
      * apply free_of_append. now split.
      * exact Hopen.
    + apply andb_true_iff in Hopen as [Hc Hopen].
      apply negb_true_iff, Ascii.eqb_neq in Hc.
      replace (done ++ String c s')%string with ((done ++ String c EmptyString) ++ s')%string
        by now rewrite append_assoc.
      rewrite IH.
      * now rewrite append_assoc.
      * cbn in Hlen. lia.
      * apply free_of_append. split; [exact Hdone |].
        apply free_of_cons. split; [exact Hc | intros []].
      * exact Hopen.
Qed.

(** Pattern resolution as the specification words it, for values and names
    on which [replace] is a plain substitution: the working copy is the
    name with the value in the place of every placeholder, the template is
    matched exactly when that string is the requested name, and the
    bindings pair every placeholder, in order of appearance, with the one
    value. *)
Theorem pattern_resolution_plain_value (s : Script) (param v : string) :
  nth_error (split ":" param) 1 = Some v ->
  v <> EmptyString ->
  free_of "$" v ->
  dollarsOpen (name s) = true ->
  substituteName s param =
    (instantiate v (name s), map (fun p => mkSub p v) (execAll (name s))) /\
  (instantiate v (name s) = param ->
   matchPattern s param =
   Some (mkProcessed s (map (fun p => mkSub p v) (execAll (name s))))) /\
  (instantiate v (name s) <> param -> matchPattern s param = None).
Proof.
  intros Hv Hne Hfree Hopen.
  assert (Hsub : substituteName s param =
                 (instantiate v (name s), map (fun p => mkSub p v) (execAll (name s)))).
  { rewrite (substituteName_value s param v Hv Hne). f_equal.
    apply (replace_loop_instantiates v Hfree (String.length (name s)) (name s) EmptyString);
      [lia | intros [] | exact Hopen]. }
  split; [exact Hsub |]. unfold matchPattern. rewrite Hsub. split.
  - intros ->. now rewrite String.eqb_refl.
  - intros H. apply String.eqb_neq in H. now rewrite H.
Qed.

Lemma pattern_resolution_plain_value_witness :
  matchPattern Examples.deploy "deploy:prod"
  = Some (mkProcessed Examples.deploy [mkSub "${env}" "prod"]).
Proof.
  assert (Hfree : free_of "$" "prod").
  { unfold free_of. cbn. intros [H | [H | [H | [H | []]]]]; discriminate. }
  assert (Hne : "prod" <> EmptyString) by discriminate.
  exact (proj1 (proj2 (pattern_resolution_plain_value
                         Examples.deploy "deploy:prod" "prod"
                         eq_refl Hne Hfree eq_refl)) eq_refl).
Defined.

(* ================================================================== *)
(** ** Missing scripts *)
(* ================================================================== *)

(** Where [replace] is a plain substitution, a template the requested name
    does not match is not matched by the loop either. *)
Lemma matchPattern_unmatched (s : Script) (param : string) :
  (forall v, nth_error (split ":" param) 1 = Some v -> free_of "$" v) ->
  dollarsOpen (name s) = true ->
  ~ matchesTemplate s param ->
  matchPattern s param = None.
Proof.
  intros Hfree Hopen Hno.
  assert (Hname : String.eqb (name s) param = false).
  { apply String.eqb_neq. intros E. apply Hno. now left. }
  destruct (nth_error (split ":" param) 1) as [v |] eqn:Hv.
  - destruct (String.eqb v EmptyString) eqn:Ev.
    + apply String.eqb_eq in Ev. subst v.
      unfold matchPattern. rewrite substituteName_no_value by now rewrite Hv.
      now rewrite Hname.
    + apply String.eqb_neq in Ev.
      unfold matchPattern. rewrite (substituteName_value s param v Hv Ev).
      assert (Hr : fold_left (fun scriptName placeholder => replace scriptName placeholder v)
                             (execAll (name s)) (name s)
                   = instantiate v (name s)).
      { apply (replace_loop_instantiates v (Hfree v eq_refl)
                 (String.length (name s)) (name s) EmptyString);
          [lia | intros [] | exact Hopen]. }
      rewrite Hr.
      assert (E : String.eqb (instantiate v (name s)) param = false).
      { apply String.eqb_neq. intros E. apply Hno. right. now exists v. }
      now rewrite E.
  - unfold matchPattern. rewrite substituteName_no_value by now rewrite Hv.
    now rewrite Hname.
Qed.

(** C9, on the program.  Requesting [k:$`:k:$`:] against the one template
    [k:$`:${x}]: the names differ, and the template name with the value of
    the request in the place of its placeholder is not the requested name,
    whether the value is the part between the first and the second colon
    or all that follows the first colon.  Yet the resolver returns the
    template and a plan is built: [String.prototype.replace] reads the
    value ["$`"] as the text before the match.  Where [replace] is a plain
    substitution (no dollar sign in the value, every dollar sign of a
    template name opening a placeholder), a name that matches no template
    makes the resolver throw the error that names it and the pass yields
    that error and no plan, also as a nested name.  In every case, a call
    of the plan builder whose phases meet a throwing command throws the
    same error itself, and so does the [runCommand] that made the call:
    the error reaches the top and no step is returned. *)
Theorem C9_script_not_found_on_code :
  (~ matchesTemplate Examples.backtick "k:$`:k:$`:" /\
   instantiate "$`" (name Examples.backtick) = "k:$`:$`" /\
   instantiate "$`:k:$`:" (name Examples.backtick) = "k:$`:$`:k:$`:" /\
   findMatchingScript Examples.registryBacktick "k:$`:k:$`:"
   = Ok (mkProcessed Examples.backtick [mkSub "${x}" "$`"]) /\
   planOf (buildPlan Examples.registryBacktick Examples.args Examples.literalMatch 1
                     "k:$`:k:$`:")
   = Some [mkStep "k:$`:k:$`:" COMMAND "echo echo " false]) /\
  (forall scripts argv minimatch param,
      (forall v, nth_error (split ":" param) 1 = Some v -> free_of "$" v) ->
      (forall s, In s scripts -> dollarsOpen (name s) = true) ->
      (forall s, In s scripts -> ~ matchesTemplate s param) ->
      let e := JsError ("No script found for " ++ param) in
      findMatchingScript scripts param = Err e /\
      (forall fuel,
          buildPlan scripts argv minimatch fuel param = Err e /\
          planOf (buildPlan scripts argv minimatch fuel param) = None) /\
      (forall fuel nm commandToRun subs ph lvl st,
          startsWith commandToRun bnrunPrefix = true ->
          drop (String.length bnrunPrefix) (substituteCommand subs commandToRun) = param ->
          runCommand scripts argv minimatch fuel nm commandToRun subs ph lvl st = Err e)) /\
  (forall scripts argv minimatch e fuel ps ph lvl steps st,
      PlanThrows scripts argv minimatch fuel ps ph lvl st e ->
      executeScript scripts argv minimatch (S fuel) ps ph lvl steps st = Err e /\
      planOf (executeScript scripts argv minimatch (S fuel) ps ph lvl steps st) = None) /\
  (forall scripts argv minimatch e fuel nm commandToRun subs ph lvl st found,
      startsWith commandToRun bnrunPrefix = true ->
      findMatchingScript scripts
        (drop (String.length bnrunPrefix) (substituteCommand subs commandToRun)) = Ok found ->
      executeScript scripts argv minimatch fuel found ph lvl [] st = Err e ->
      runCommand scripts argv minimatch fuel nm commandToRun subs ph lvl st = Err e).
Proof.
  split; [| split; [| split]].
  - split; [| repeat split; reflexivity].
    intros [H | (v & Hv & H)]; [discriminate H |].
    cbn in Hv. injection Hv as <-. vm_compute in H. discriminate H.
  - intros scripts argv minimatch param Hfree Hopen Hnone e.
    assert (Hfind : findMatchingScript scripts param = Err e).
    { unfold findMatchingScript.
      assert (E1 : find (fun s => String.eqb (name s) param) scripts = None).
      { apply find_none_iff. intros s Hs. apply String.eqb_neq.
        intros E. apply (Hnone s Hs). now left. }
      assert (E2 : findByPattern scripts param = None).
      { apply findByPattern_None. intros s Hs.
        apply matchPattern_unmatched; auto. }
      now rewrite E1, E2. }
    split; [exact Hfind |]. split.
    + intros fuel. unfold buildPlan, bind, lift. rewrite Hfind. now split.
    + intros fuel nm commandToRun subs ph lvl st Hstart Hnested.
      apply runCommand_Err_iff. split; [exact Hstart |]. cbv zeta.
      left. now rewrite Hnested.
  - intros scripts argv minimatch e fuel ps ph lvl steps st H.
    apply (executeScript_Err_iff scripts argv minimatch fuel ps ph lvl steps) in H.
    rewrite H. now split.
  - intros scripts argv minimatch e fuel nm commandToRun subs ph lvl st found
           Hstart Hfound Hnested.
    apply runCommand_Err_iff. split; [exact Hstart |]. cbv zeta.
    right. now exists found.
Qed.

(* ================================================================== *)
(** ** More on the resolver *)
(* ================================================================== *)

Lemma fold_left_bindings (v : string) (l : list string) (n : string) :
  fold_left (fun name sub => replace name (sub_param sub) (sub_value sub))
            (map (fun placeholder => mkSub placeholder v) l) n
  = fold_left (fun scriptName placeholder => replace scriptName placeholder v) l n.
Proof.
  revert n. induction l as [| p l IH]; intros n; [reflexivity |].
  cbn [map fold_left sub_param sub_value]. apply IH.
Qed.

(** Whatever the resolver returns is a template of the registry, and the
    name [executeScript] derives from it for display, each binding
    replaced in turn, is the requested name again. *)
Theorem resolved_name_is_requested
        (scripts : list Script) (param : string) (found : ProcessedScript) :
  findMatchingScript scripts param = Ok found ->
  In (script found) scripts /\ displayName found = param.
Proof.
  unfold findMatchingScript, displayName.
  destruct (find (fun s => String.eqb (name s) param) scripts) as [t |] eqn:E.
  - intros H. injection H as <-. apply find_some in E as [Hin E].
    apply String.eqb_eq in E. now split.
  - destruct (findByPattern scripts param) as [f |] eqn:Ef; [| discriminate].
    intros H. injection H as <-.
    apply findByPattern_Some in Ef as (s & Hin & Hm).
    apply matchPattern_Some in Hm as [-> Hn]. cbn [script substitutions].
    split; [exact Hin |].
    destruct (nth_error (split ":" param) 1) as [v |] eqn:Ev.
    + destruct (string_dec v EmptyString) as [-> | Hne].
      * rewrite substituteName_no_value in * by now rewrite Ev. exact Hn.
      * rewrite (substituteName_value s param v Ev Hne) in *. cbn [fst snd] in *.
        now rewrite fold_left_bindings.
    + rewrite substituteName_no_value in * by now rewrite Ev. exact Hn.
Qed.

Lemma resolved_name_is_requested_witness :
  In (script (mkProcessed Examples.deploy [mkSub "${env}" "prod"])) Examples.registry /\
  displayName (mkProcessed Examples.deploy [mkSub "${env}" "prod"]) = "deploy:prod".
Proof.
  exact (resolved_name_is_requested Examples.registry "deploy:prod" _ eq_refl).
Defined.

(** A requested name whose part between the first and the second colon is
    empty (as in [deploy:] or [deploy::prod]) yields a value that counts
    as absent: the loop replaces and records nothing, and the resolver
    returns the first template that carries the requested name verbatim,
    or throws. *)
Theorem empty_value_exact_only (scripts : list Script) (param : string) :
  nth_error (split ":" param) 1 = Some EmptyString ->
  (forall s, substituteName s param = (name s, [])) /\
  findMatchingScript scripts param =
    match find (fun s => String.eqb (name s) param) scripts with
    | Some s => Ok (mkProcessed s [])
    | None => Err (JsError ("No script found for " ++ param))
    end.
Proof.
  intros Hv.
  assert (Hsub : forall s, substituteName s param = (name s, [])).
  { intros s. apply substituteName_no_value. now rewrite Hv. }
  split; [exact Hsub |]. unfold findMatchingScript.
  destruct (find (fun s => String.eqb (name s) param) scripts) eqn:E; [reflexivity |].
  assert (Hnone : findByPattern scripts param = None).
  { apply findByPattern_None. intros s Hs. unfold matchPattern. rewrite Hsub.
    now rewrite (find_none _ _ E s Hs). }
  now rewrite Hnone.
Qed.

Lemma empty_value_exact_only_witness :
  substituteName Examples.deploy "deploy:" = ("deploy:${env}", []) /\
  findMatchingScript Examples.registry "deploy:"
  = Err (JsError "No script found for deploy:").
Proof.
  destruct (empty_value_exact_only Examples.registry "deploy:" eq_refl) as [Hs Hf].
  split; [exact (Hs Examples.deploy) | exact Hf].
Defined.

Lemma replaceAll_absent (a : ascii) (pat rep s : string) :
  free_of a s -> replaceAll s (String a pat) rep = s.
Proof.
  intros H. unfold replaceAll.
  rewrite <- (append_empty_r s) at 1.
  rewrite (replaceAllFrom_skips a pat rep s H). cbn. apply append_empty_r.
Qed.

(** A command template without dollar sign goes into the plan as it is
    written, whatever the resolver has bound. *)
Theorem plain_command_verbatim
        (scripts : list Script) (param : string) (found : ProcessedScript)
        (commandToRun : string) :
  findMatchingScript scripts param = Ok found ->
  free_of "$" commandToRun ->
  substituteCommand (substitutions found) commandToRun = commandToRun.
Proof.
  intros Hfound Hfree.
  pose proof (findMatchingScript_params _ _ _ Hfound) as Hsubs.
  unfold substituteCommand.
  induction (substitutions found) as [| sub subs IH]; [reflexivity |].
  cbn [fold_left].
  destruct (Hsubs sub (or_introl eq_refl)) as [w ->].
  change ("${" ++ w ++ "}")%string with (String "$" ("{" ++ w ++ "}")).
  rewrite (replaceAll_absent "$" _ _ _ Hfree).
  apply IH. intros s Hs. apply Hsubs. now right.
Qed.

Lemma plain_command_verbatim_witness :
  substituteCommand [mkSub "${env}" "prod"] "echo setup" = "echo setup".
Proof.
  assert (Hfree : free_of "$" "echo setup").
  { unfold free_of. cbn. intuition discriminate. }
  exact (plain_command_verbatim Examples.registry "deploy:prod" _ "echo setup"
                                eq_refl Hfree).
Defined.

(* ================================================================== *)
(** ** More on the plan builder *)
(* ================================================================== *)

Section PlanBuilderFacts.

Variable scripts : list Script.
Variable argv : CLIArgs.
Variable minimatch : string -> string -> bool.

Local Abbreviation exec := (executeScript scripts argv minimatch).
Local Abbreviation rc := (runCommand scripts argv minimatch).

(** *** An invariant principle for the state *)

Section StateInvariant.

Variable R : State -> State -> Prop.
Hypothesis R_refl : forall st, R st st.
Hypothesis R_trans : forall st1 st2 st3, R st1 st2 -> R st2 st3 -> R st1 st3.
Hypothesis R_log : forall str lvl st, R st (logged argv str lvl st).
Hypothesis R_push : forall nm st,
    R st (mkState (scriptsRan st ++ [nm])%list (console st)).

Lemma Spliced_invariant f nm subs ph lvl cmds st out st' :
  (forall c st out st', f nm c subs ph (lvl + 1) st = Ok (out, st') -> R st st') ->
  Spliced f nm subs ph lvl cmds st out st' -> R st st'.
Proof.
  intros Hf. induction 1 as [st0 | c cs st0 s1 st1 s2 st2 Hc _ IH].
  - apply R_refl.
  - eapply R_trans; [eapply Hf; eassumption | exact IH].
Qed.

Lemma phaseIf_invariant b f nm cmds subs ph lvl st out st' :
  (forall c st out st', f nm c subs ph (lvl + 1) st = Ok (out, st') -> R st st') ->
  phaseIf b (runPhase f nm cmds subs ph lvl) st = Ok (out, st') -> R st st'.
Proof.
  intros Hf H. apply phaseIf_Spliced in H. eapply Spliced_invariant; eassumption.
Qed.

(** A relation between states that holds across a log line and across the
    push of a name, and is reflexive and transitive, holds across every
    call of the plan builder that returns. *)
Lemma executeScript_invariant fuel :
  forall ps ph lvl steps st out st',
    exec fuel ps ph lvl steps st = Ok (out, st') -> R st st'.
Proof.
  induction fuel as [| fuel IH]; intros ps ph lvl steps st out st' H; [discriminate |].
  assert (Hrc : forall nm c subs ph lvl st out st',
             rc fuel nm c subs ph lvl st = Ok (out, st') -> R st st').
  { intros nm c subs ph0 lvl0 st0 out0 st0'. unfold runCommand, runCommand_.
    destruct (startsWith c bnrunPrefix).
    - intros H0. apply bind_Ok_inv in H0 as (found & st1 & Hf & H0).
      unfold lift in Hf. destruct (findMatchingScript scripts _); try discriminate.
      injection Hf as <- <-. eapply IH; eassumption.
    - intros H0. apply bind_Ok_inv in H0 as (u & st1 & Hlog & H0).
      rewrite log_run in Hlog. injection Hlog as _ <-. injection H0 as _ <-.
      apply R_log. }
  rewrite executeScript_unfold in H. apply executePhases_Ok_iff in H.
  destruct H as (preS & cmdS & postS & st1 & st2 & st3 & H). cbv zeta in H.
  destruct H as (Hpre & Hcmd & Hpost & _ & ->).
  apply phaseIf_invariant in Hpre; [| intros; eapply Hrc; eassumption].
  apply phaseIf_invariant in Hcmd; [| intros; eapply Hrc; eassumption].
  apply phaseIf_invariant in Hpost; [| intros; eapply Hrc; eassumption].
  eapply R_trans; [apply R_log |].
  eapply R_trans; [exact Hpre |].
  eapply R_trans; [exact Hcmd |].
  eapply R_trans; [exact Hpost |]. apply R_push.
Qed.

End StateInvariant.

(** *** The console *)

Lemma consoleGrows_refl st : consoleGrows argv st st.
Proof. exists []. split; [now rewrite app_nil_r | reflexivity]. Qed.

Lemma consoleGrows_trans st1 st2 st3 :
  consoleGrows argv st1 st2 -> consoleGrows argv st2 st3 -> consoleGrows argv st1 st3.
Proof.
  intros (m1 & H1 & Q1) (m2 & H2 & Q2). exists (m1 ++ m2)%list. split.
  - now rewrite H2, H1, app_assoc.
  - intros Hv. now rewrite (Q1 Hv), (Q2 Hv).
Qed.

Lemma consoleGrows_log str lvl st : consoleGrows argv st (logged argv str lvl st).
Proof.
  unfold consoleGrows, logged. destruct (verbose argv); cbn.
  - eexists. split; [reflexivity | discriminate].
  - exists []. split; [now rewrite app_nil_r | reflexivity].
Qed.

Lemma consoleGrows_push nm st :
  consoleGrows argv st (mkState (scriptsRan st ++ [nm])%list (console st)).
Proof. exists []. split; [cbn; now rewrite app_nil_r | reflexivity]. Qed.

(** Plan building only ever appends lines to the console, and appends none
    when [verbose] is off. *)
Theorem plan_building_console fuel ps ph lvl steps st out st' :
  executeScript scripts argv minimatch fuel ps ph lvl steps st = Ok (out, st') ->
  (exists more, console st' = (console st ++ more)%list) /\
  (verbose argv = false -> console st' = console st).
Proof.
  intros H.
  destruct (executeScript_invariant (consoleGrows argv) consoleGrows_refl
              consoleGrows_trans consoleGrows_log consoleGrows_push
              _ _ _ _ _ _ _ _ H) as (more & Hc & Hq).
  split; [now exists more |].
  intros Hv. now rewrite Hc, (Hq Hv), app_nil_r.
Qed.

(** *** The accumulator *)

(** The steps handed to [executeScript] come back in front of the steps the
    call itself builds; they change nothing else. *)
Theorem steps_accumulator fuel ps ph lvl steps st :
  executeScript scripts argv minimatch fuel ps ph lvl steps st =
  match executeScript scripts argv minimatch fuel ps ph lvl [] st with
  | Ok (out, st') => Ok ((steps ++ out)%list, st')
  | Err e => Err e
  | OutOfFuel => OutOfFuel
  end.
Proof.
  destruct fuel as [| fuel]; [reflexivity |].
  destruct (exec (S fuel) ps ph lvl [] st) as [[out st'] | e |] eqn:E0.
  - rewrite executeScript_unfold in E0 |- *.
    apply executePhases_Ok_iff in E0.
    destruct E0 as (preS & cmdS & postS & st1 & st2 & st3 & E0). cbv zeta in E0.
    destruct E0 as (Hpre & Hcmd & Hpost & -> & ->).
    apply executePhases_Ok_iff.
    exists preS, cmdS, postS, st1, st2, st3. cbv zeta. auto.
  - apply executeScript_Err_iff. now apply executeScript_Err_iff in E0.
  - destruct (exec (S fuel) ps ph lvl steps st) as [[out st'] | e |] eqn:E1;
      [| | reflexivity]; exfalso.
    + rewrite executeScript_unfold in E0, E1.
      apply executePhases_Ok_iff in E1.
      destruct E1 as (preS & cmdS & postS & st1 & st2 & st3 & E1). cbv zeta in E1.
      destruct E1 as (Hpre & Hcmd & Hpost & _ & _).
      assert (E : executePhases scripts argv minimatch fuel ps ph lvl []
                    (fun st => shouldExecutePre (scriptsRan st) (script ps))
                    (fun st => shouldExecutePost (scriptsRan st) (script ps)) st
                  = Ok (([] ++ preS ++ cmdS ++ postS)%list,
                        mkState (scriptsRan st3 ++ [name (script ps)])%list (console st3))).
      { apply executePhases_Ok_iff.
        exists preS, cmdS, postS, st1, st2, st3. cbv zeta. auto. }
      congruence.
    + apply executeScript_Err_iff in E1.
      apply (executeScript_Err_iff scripts argv minimatch fuel ps ph lvl []) in E1.
      congruence.
Qed.

(** *** Scripts without self-invocation *)

Lemma runCommand_leaf fuel nm c subs ph lvl st :
  startsWith c bnrunPrefix = false ->
  rc fuel nm c subs ph lvl st =
  Ok ([mkStep nm ph (substituteCommand subs c)
              (matchGlobPatterns minimatch [nm; substituteCommand subs c]
                                 (orEmpty (skip argv)))],
      logged argv (commandLogPrefix ph ++ ": " ++ substituteCommand subs c) lvl st).
Proof.
  intros H. unfold runCommand, runCommand_. rewrite H. cbv zeta.
  now rewrite (bind_Ok _ _ _ _ _ (log_run argv _ _ _)).
Qed.

Lemma Spliced_leaf fuel ps phase lvl cmds :
  noSelfInvocation cmds ->
  forall st,
  exists st',
    Spliced (rc fuel) (displayName ps) (substitutions ps) phase lvl cmds st
            (leafSteps argv minimatch ps phase cmds) st' /\
    scriptsRan st' = scriptsRan st.
Proof.
  induction cmds as [| c cmds IH]; intros Hleaf st.
  - exists st. split; [constructor | reflexivity].
  - destruct (IH (fun c' Hc' => Hleaf c' (or_intror Hc'))
                 (logged argv
                    (commandLogPrefix phase ++ ": "
                       ++ substituteCommand (substitutions ps) c) (lvl + 1) st))
      as (st' & Hs & Hl).
    exists st'. split.
    + change (leafSteps argv minimatch ps phase (c :: cmds))
        with ([mkStep (displayName ps) phase (substituteCommand (substitutions ps) c)
                 (matchGlobPatterns minimatch
                    [displayName ps; substituteCommand (substitutions ps) c]
                    (orEmpty (skip argv)))]
              ++ leafSteps argv minimatch ps phase cmds)%list.
      econstructor; [| exact Hs].
      apply runCommand_leaf. apply Hleaf. now left.
    + now rewrite Hl, logged_scriptsRan.
Qed.

Lemma noSelfInvocation_if (b : bool) cmds :
  noSelfInvocation cmds -> noSelfInvocation (if b then cmds else []).
Proof. destruct b; [auto | intros _ c []]. Qed.

(** A script none of whose command templates is a self-invocation builds
    its plan at depth one, whatever the registry holds: one step per
    command template of the pre phase (when due), of the command phase and
    of the post phase (when due), in that order, each with the display
    name, its own phase, the substituted command and the filter's
    verdict; the ledger gains the template name and nothing else. *)
Theorem leaf_script_plan fuel ps ph lvl st :
  noSelfInvocation (orEmpty (pre (script ps))) ->
  noSelfInvocation (command (script ps)) ->
  noSelfInvocation (orEmpty (post (script ps))) ->
  exists st',
    executeScript scripts argv minimatch (S fuel) ps ph lvl [] st =
    Ok ((leafSteps argv minimatch ps PRE
           (if shouldExecutePre (scriptsRan st) (script ps)
            then orEmpty (pre (script ps)) else [])
         ++ leafSteps argv minimatch ps COMMAND (command (script ps))
         ++ leafSteps argv minimatch ps POST
              (if shouldExecutePost (scriptsRan st) (script ps)
               then orEmpty (post (script ps)) else []))%list,
        st') /\
    scriptsRan st' = (scriptsRan st ++ [name (script ps)])%list.
Proof.
  intros Hpre Hcmd Hpost.
  set (st0 := logged argv (scriptLogPrefix ph ++ " " ++ displayName ps) lvl st).
  assert (H0 : scriptsRan st0 = scriptsRan st) by apply logged_scriptsRan.
  destruct (Spliced_leaf fuel ps PRE lvl _
              (noSelfInvocation_if (shouldExecutePre (scriptsRan st) (script ps)) _ Hpre)
              st0) as (st1 & S1 & L1).
  destruct (Spliced_leaf fuel ps COMMAND lvl _ Hcmd st1) as (st2 & S2 & L2).
  destruct (Spliced_leaf fuel ps POST lvl _
              (noSelfInvocation_if (shouldExecutePost (scriptsRan st) (script ps)) _ Hpost)
              st2) as (st3 & S3 & L3).
  exists (mkState (scriptsRan st3 ++ [name (script ps)])%list (console st3)).
  split; [| cbn; congruence].
  rewrite executeScript_unfold. apply executePhases_Ok_iff.
  eexists _, _, _, st1, st2, st3. cbv zeta. fold st0.
  split; [| split; [| split; [| split; reflexivity]]].
  - apply phaseIf_Spliced. rewrite H0. exact S1.
  - apply phaseIf_nonempty_Spliced. exact S2.
  - apply phaseIf_Spliced. replace (scriptsRan st2) with (scriptsRan st) by congruence.
    exact S3.
Qed.

(** *** Direct self-invocation *)

Lemma Spliced_In f nm subs ph lvl cmds st out st' c :
  Spliced f nm subs ph lvl cmds st out st' -> In c cmds ->
  exists s0 o s1, f nm c subs ph (lvl + 1) s0 = Ok (o, s1).
Proof.
  induction 1 as [st0 | c0 cs st0 s1 st1 s2 st2 Hc _ IH]; intros Hin; [destruct Hin |].
  destruct Hin as [<- | Hin]; [now exists st0, s1, st1 | now apply IH].
Qed.

(** A script that is resolved by its own name and has, among its command
    templates, the self-invocation of that name never yields a plan: no
    depth of calls is enough for [executeScript] to return. *)
Theorem self_invocation_never_returns (s : Script) :
  find (fun t => String.eqb (name t) (name s)) scripts = Some s ->
  In (bnrunPrefix ++ name s)%string (command s) ->
  forall fuel ph lvl steps st,
    planOf (executeScript scripts argv minimatch fuel (mkProcessed s []) ph lvl steps st)
    = None.
Proof.
  intros Hfind Hin.
  assert (Hno : forall fuel ph lvl steps st out st',
             exec fuel (mkProcessed s []) ph lvl steps st <> Ok (out, st')).
  { induction fuel as [| fuel IH]; intros ph lvl steps st out st' H; [discriminate |].
    rewrite executeScript_unfold in H. apply executePhases_Ok_iff in H.
    destruct H as (preS & cmdS & postS & st1 & st2 & st3 & H). cbv zeta in H.
    destruct H as (_ & Hcmd & _). cbn [script substitutions] in Hcmd.
    apply phaseIf_nonempty_Spliced in Hcmd.
    destruct (Spliced_In _ _ _ _ _ _ _ _ _ _ Hcmd Hin) as (s0 & o & s1 & Hc).
    unfold runCommand, runCommand_ in Hc.
    assert (Hstart : startsWith (bnrunPrefix ++ name s) bnrunPrefix = true).
    { apply prefix_append. now exists (name s). }
    rewrite Hstart in Hc. cbv zeta in Hc.
    change (substituteCommand [] (bnrunPrefix ++ name s)) with (bnrunPrefix ++ name s)%string in Hc.
    rewrite drop_append in Hc.
    unfold findMatchingScript in Hc. rewrite Hfind in Hc.
    cbn [lift] in Hc. unfold bind, lift in Hc.
    exact (IH _ _ _ _ _ _ Hc). }
  intros fuel ph lvl steps st.
  destruct (exec fuel (mkProcessed s []) ph lvl steps st) as [[out st'] | e |] eqn:E;
    [| reflexivity | reflexivity].
  exfalso. exact (Hno _ _ _ _ _ _ _ E).
Qed.

End PlanBuilderFacts.

Lemma plan_building_console_witness :
  (exists more, console (mkState ["build"] []) = (console initialState ++ more)%list) /\
  (verbose Examples.args = false -> console (mkState ["build"] []) = console initialState).
Proof.
  exact (plan_building_console
           Examples.registry Examples.args Examples.literalMatch 1
           (mkProcessed Examples.build []) COMMAND 0 [] initialState _ _ eq_refl).
Defined.

Lemma leaf_script_plan_witness :
  exists st',
    executeScript Examples.registry Examples.args Examples.literalMatch 1
                  (mkProcessed Examples.deploy [mkSub "${env}" "prod"]) COMMAND 0 []
                  initialState
    = Ok ([mkStep "deploy:prod" PRE "echo setup" false;
           mkStep "deploy:prod" COMMAND "echo deploy prod" false], st') /\
    scriptsRan st' = ["deploy:${env}"].
Proof.
  assert (H1 : noSelfInvocation (orEmpty (pre Examples.deploy)))
    by (intros c [<- | []]; reflexivity).
  assert (H2 : noSelfInvocation (command Examples.deploy))
    by (intros c [<- | []]; reflexivity).
  assert (H3 : noSelfInvocation (orEmpty (post Examples.deploy)))
    by (intros c []).
  exact (leaf_script_plan Examples.registry Examples.args Examples.literalMatch 0
           (mkProcessed Examples.deploy [mkSub "${env}" "prod"]) COMMAND 0 initialState
           H1 H2 H3).
Defined.

Lemma self_invocation_never_returns_witness :
  planOf (executeScript Examples.registryLoop Examples.args Examples.literalMatch 50
                        (mkProcessed Examples.loop []) COMMAND 0 [] initialState)
  = None.
Proof.
  exact (self_invocation_never_returns
           Examples.registryLoop Examples.args Examples.literalMatch Examples.loop
           eq_refl (or_intror (or_introl eq_refl)) 50 COMMAND 0 [] initialState).
Defined.

(* ================================================================== *)
(** ** What a plan does not depend on *)
(* ================================================================== *)

Section Independence.

Variable scripts : list Script.
Variable minimatch : string -> string -> bool.
Variables argv1 argv2 : CLIArgs.
Hypothesis same_skip : skip argv1 = skip argv2.

Lemma related_bind {A B} (m1 m2 : M A) (k1 k2 : A -> M B) :
  ledgerRelated m1 m2 -> (forall a, ledgerRelated (k1 a) (k2 a)) ->
  ledgerRelated (bind m1 k1) (bind m2 k2).
Proof.
  intros Hm Hk st1 st2 Hst. specialize (Hm st1 st2 Hst). unfold bind, sameOutcome in *.
  destruct (m1 st1) as [[a1 s1] | e1 |], (m2 st2) as [[a2 s2] | e2 |];
    try contradiction; try exact Hm.
  destruct Hm as [<- Hs]. exact (Hk a1 s1 s2 Hs).
Qed.

Lemma related_ret {A} (a : A) : ledgerRelated (ret a) (ret a).
Proof. intros st1 st2 Hst. cbn. now split. Qed.

Lemma related_lift {A} (r : Res A) : ledgerRelated (lift r) (lift r).
Proof. intros st1 st2 Hst. unfold lift. destruct r; cbn; auto. Qed.

Lemma related_log str1 str2 lvl1 lvl2 :
  ledgerRelated (log argv1 str1 lvl1) (log argv2 str2 lvl2).
Proof.
  intros st1 st2 Hst. rewrite !log_run. cbn. split; [reflexivity |].
  now rewrite !logged_scriptsRan.
Qed.

Lemma related_gets {A} (f : list string -> A) :
  ledgerRelated (gets (fun st => f (scriptsRan st))) (gets (fun st => f (scriptsRan st))).
Proof. intros st1 st2 Hst. cbn. now rewrite Hst. Qed.

Lemma related_push nm :
  ledgerRelated
    (modify (fun st => mkState (scriptsRan st ++ [nm])%list (console st)))
    (modify (fun st => mkState (scriptsRan st ++ [nm])%list (console st))).
Proof. intros st1 st2 Hst. cbn. now rewrite Hst. Qed.

Lemma related_mapM {A B} (f1 f2 : A -> M B) xs :
  (forall x, ledgerRelated (f1 x) (f2 x)) -> ledgerRelated (mapM f1 xs) (mapM f2 xs).
Proof.
  intros Hf. induction xs as [| x xs IH]; cbn [mapM].
  - apply related_ret.
  - apply related_bind; [apply Hf |]. intros y.
    apply related_bind; [apply IH |]. intros ys. apply related_ret.
Qed.

Lemma related_runPhase f1 f2 nm cmds subs ph lvl1 lvl2 :
  (forall c, ledgerRelated (f1 nm c subs ph (lvl1 + 1)) (f2 nm c subs ph (lvl2 + 1))) ->
  ledgerRelated (runPhase f1 nm cmds subs ph lvl1) (runPhase f2 nm cmds subs ph lvl2).
Proof.
  intros Hf. unfold runPhase. apply related_bind.
  - apply related_mapM. exact Hf.
  - intros steps. apply related_ret.
Qed.

Lemma related_runCommand exec1 exec2 nm c subs ph lvl1 lvl2 :
  (forall found, ledgerRelated (exec1 found ph lvl1) (exec2 found ph lvl2)) ->
  ledgerRelated (runCommand_ scripts argv1 minimatch exec1 nm c subs ph lvl1)
                (runCommand_ scripts argv2 minimatch exec2 nm c subs ph lvl2).
Proof.
  intros Hexec. unfold runCommand_. cbv zeta. rewrite same_skip.
  destruct (startsWith c bnrunPrefix).
  - apply related_bind; [apply related_lift | exact Hexec].
  - apply related_bind; [apply related_log |]. intros _. apply related_ret.
Qed.

Lemma related_executeScript fuel :
  forall ps ph1 ph2 lvl1 lvl2 steps,
    ledgerRelated (executeScript scripts argv1 minimatch fuel ps ph1 lvl1 steps)
                  (executeScript scripts argv2 minimatch fuel ps ph2 lvl2 steps).
Proof.
  induction fuel as [| fuel IH]; intros ps ph1 ph2 lvl1 lvl2 steps.
  - intros st1 st2 _. exact I.
  - assert (Hrc : forall nm c subs ph l1 l2,
               ledgerRelated
                 (runCommand_ scripts argv1 minimatch
                    (fun found ph lvl => executeScript scripts argv1 minimatch fuel found ph lvl [])
                    nm c subs ph l1)
                 (runCommand_ scripts argv2 minimatch
                    (fun found ph lvl => executeScript scripts argv2 minimatch fuel found ph lvl [])
                    nm c subs ph l2)).
    { intros. apply related_runCommand. intros found. apply IH. }
    cbn [executeScript].
    apply related_bind; [apply related_log | intros _].
    apply related_bind;
      [apply (related_gets (fun ran => shouldExecutePre ran (script ps))) | intros doPre].
    apply related_bind.
    { destruct doPre; [| apply related_ret].
      apply related_bind; [| intros; apply related_ret].
      apply related_runPhase. intros c. apply Hrc. }
    intros b1. apply related_bind.
    { destruct (Nat.ltb 0 (List.length (command (script ps)))); [| apply related_ret].
      apply related_bind; [| intros; apply related_ret].
      apply related_runPhase. intros c. apply Hrc. }
    intros b2. apply related_bind;
      [apply (related_gets (fun ran => shouldExecutePost ran (script ps))) | intros doPost].
    apply related_bind.
    { destruct doPost; [| apply related_ret].
      apply related_bind; [| intros; apply related_ret].
      apply related_runPhase. intros c. apply Hrc. }
    intros b3. apply related_bind; [apply related_push | intros _; apply related_ret].
Qed.

End Independence.

(** The steps a call of the plan builder returns, the ledger it leaves and
    the exception it throws depend neither on the [phase] and [level] it is
    given nor on [verbose] (nor on any option but [skip]), nor on the
    console: a script invoked from a pre or post phase yields the very
    steps, with the very phases, it yields at the top level. *)
Theorem plan_independent_of_phase_level_verbose
        (scripts : list Script) (minimatch : string -> string -> bool)
        (argv1 argv2 : CLIArgs) (fuel : nat) (ps : ProcessedScript)
        (ph1 ph2 : Phase) (lvl1 lvl2 : nat) (steps : list PlanStep) (st1 st2 : State) :
  skip argv1 = skip argv2 ->
  scriptsRan st1 = scriptsRan st2 ->
  sameOutcome (executeScript scripts argv1 minimatch fuel ps ph1 lvl1 steps st1)
              (executeScript scripts argv2 minimatch fuel ps ph2 lvl2 steps st2) /\
  planOf (executeScript scripts argv1 minimatch fuel ps ph1 lvl1 steps st1)
  = planOf (executeScript scripts argv2 minimatch fuel ps ph2 lvl2 steps st2).
Proof.
  intros Hskip Hst.
  pose proof (related_executeScript scripts minimatch argv1 argv2 Hskip fuel
                ps ph1 ph2 lvl1 lvl2 steps st1 st2 Hst) as H.
  split; [exact H |]. unfold sameOutcome in H.
  destruct (executeScript scripts argv1 minimatch fuel ps ph1 lvl1 steps st1)
    as [[o1 s1] | e1 |],
    (executeScript scripts argv2 minimatch fuel ps ph2 lvl2 steps st2)
    as [[o2 s2] | e2 |]; try contradiction; try reflexivity.
  destruct H as [-> _]. reflexivity.
Qed.

Lemma plan_independent_of_phase_level_verbose_witness :
  planOf (executeScript Examples.registryAll Examples.args Examples.literalMatch 3
                        (mkProcessed Examples.all []) COMMAND 0 [] initialState)
  = planOf (executeScript Examples.registryAll Examples.argsVerbose Examples.literalMatch 3
                          (mkProcessed Examples.all []) PRE 4 []
                          (mkState [] ["earlier output"])).
Proof.
  exact (proj2 (plan_independent_of_phase_level_verbose
                  Examples.registryAll Examples.literalMatch
                  Examples.args Examples.argsVerbose 3 (mkProcessed Examples.all [])
                  COMMAND PRE 0 4 [] initialState (mkState [] ["earlier output"])
                  eq_refl eq_refl)).
Defined.

(* ================================================================== *)
(** ** More on loading *)
(* ================================================================== *)

Lemma getProp_app (l1 l2 : Loader.Obj) (key : string) :
  Loader.getProp (l1 ++ l2)%list key =
  match Loader.getProp l1 key with
  | Some x => Some x
  | None => Loader.getProp l2 key
  end.
Proof.
  induction l1 as [| [k x] l1 IH]; cbn; [reflexivity |].
  destruct (String.eqb k key); [reflexivity | exact IH].
Qed.

Lemma getProp_setProp (props : Loader.Obj) (k : string) (x : Loader.JSON) (key : string) :
  Loader.getProp (Loader.setProp props k x) key =
  if String.eqb k key then Some x else Loader.getProp props key.
Proof.
  induction props as [| [k0 y] props IH]; cbn.
  - reflexivity.
  - destruct (String.eqb k0 k) eqn:E0; cbn.
    + apply String.eqb_eq in E0. subst k0.
      destruct (String.eqb k key); reflexivity.
    + rewrite IH. destruct (String.eqb k0 key) eqn:E1; [| reflexivity].
      apply String.eqb_eq in E1. subst k0.
      rewrite String.eqb_sym in E0. now rewrite E0.
Qed.

(** In [{ ...a, ...b }] a property is the one [b] defines last, and the
    one of [a] when [b] defines none. *)
Lemma getProp_spread (a b : Loader.Obj) (key : string) :
  Loader.getProp (Loader.spread a b) key =
  match Loader.getProp (rev b) key with
  | Some x => Some x
  | None => Loader.getProp a key
  end.
Proof.
  unfold Loader.spread. revert a.
  induction b as [| [k x] b IH]; intros a; [reflexivity |].
  cbn [fold_left fst snd rev]. rewrite IH, getProp_app, getProp_setProp. cbn.
  destruct (Loader.getProp (rev b) key); [reflexivity |].
  destruct (String.eqb k key); reflexivity.
Qed.

Lemma getProp_None (props : Loader.Obj) (key : string) :
  ~ In key (map fst props) -> Loader.getProp props key = None.
Proof.
  induction props as [| [k x] props IH]; cbn; [reflexivity |].
  intros H. destruct (String.eqb k key) eqn:E.
  - apply String.eqb_eq in E. contradiction H. now left.
  - apply IH. intros Hin. apply H. now right.
Qed.

Lemma getProp_In (props : Loader.Obj) (k : string) (v : Loader.JSON) :
  NoDup (map fst props) -> In (k, v) props -> Loader.getProp props k = Some v.
Proof.
  induction props as [| [k0 x] props IH]; intros Hnd Hin; [destruct Hin |].
  cbn in Hnd. inversion Hnd as [| ? ? Hnot Hnd']. subst. cbn.
  destruct Hin as [E | Hin].
  - injection E as -> ->. now rewrite String.eqb_refl.
  - destruct (String.eqb k0 k) eqn:E.
    + apply String.eqb_eq in E. subst k0. contradiction Hnot.
      apply in_map_iff. now exists (k, v).
    + now apply IH.
Qed.

Lemma getProp_rev (props : Loader.Obj) (key : string) :
  NoDup (map fst props) -> Loader.getProp (rev props) key = Loader.getProp props key.
Proof.
  induction props as [| [k x] props IH]; intros Hnd; [reflexivity |].
  cbn in Hnd. inversion Hnd as [| ? ? Hnot Hnd']. subst.
  cbn [rev]. rewrite getProp_app, (IH Hnd'). cbn.
  destruct (String.eqb k key) eqn:E.
  - apply String.eqb_eq in E. subst k. now rewrite (getProp_None _ _ Hnot).
  - now destruct (Loader.getProp props key).
Qed.

(** A file that holds an object with distinct keys loads as one script per
    entry, in the order of the entries; the script of an entry is named
    by the key of the entry, unless the definition has a property [name]
    of its own, which then replaces the key. *)
Theorem loaded_entry_names (props : Loader.Obj) :
  NoDup (map fst props) ->
  Loader.loadScripts [Loader.JObject props] =
    Ok (map (fun kv => Loader.spread [("name", Loader.JString (fst kv))]
                                     (Loader.ownProps (snd kv)))
            props) /\
  (forall key v,
      NoDup (map fst (Loader.ownProps v)) ->
      Loader.getProp
        (Loader.spread [("name", Loader.JString key)] (Loader.ownProps v)) "name"
      = Some (match Loader.getProp (Loader.ownProps v) "name" with
              | Some n => n
              | None => Loader.JString key
              end)).
Proof.
  intros Hnd. split.
  - cbn. rewrite app_nil_r. f_equal. unfold Loader.fileEntries.
    rewrite map_map. apply map_ext_in. intros [k v] Hin. cbn [fst snd].
    now rewrite (getProp_In _ _ _ Hnd Hin).
  - intros key v Hv. rewrite getProp_spread, (getProp_rev _ _ Hv).
    destruct (Loader.getProp (Loader.ownProps v) "name"); reflexivity.
Qed.

Lemma loaded_entry_names_witness :
  Loader.loadScripts
    [Loader.JObject
       [("build", Loader.JObject [("command", Loader.JArray [Loader.JString "echo A"]);
                                  ("name", Loader.JString "other")])]]
  = Ok [[("name", Loader.JString "other");
         ("command", Loader.JArray [Loader.JString "echo A"])]].
Proof.
  assert (Hnd : NoDup (map fst
              [("build", Loader.JObject [("command", Loader.JArray [Loader.JString "echo A"]);
                                         ("name", Loader.JString "other")])])).
  { repeat constructor. intros []. }
  exact (proj1 (loaded_entry_names _ Hnd)).
Defined.

Lemma loadable_dec (file : Loader.JSON) : loadable file \/ ~ loadable file.
Proof.
  unfold loadable.
  destruct file; cbn;
    try (left; split; [reflexivity | discriminate]);
    right; intros [H1 H2]; try discriminate; now contradiction H2.
Qed.

Lemma loadable_step (file : Loader.JSON) :
  loadable file ->
  Loader.loadScriptFile file = Ok file /\
  Loader.objectKeys file = Ok (map fst (Loader.ownProps file)).
Proof.
  intros [Ht Hn]. destruct file; cbn in *; try discriminate; try now split.
Qed.

Lemma not_loadable_step (file : Loader.JSON) :
  ~ loadable file ->
  (Loader.loadScriptFile file = Err (loadError file)) \/
  (Loader.loadScriptFile file = Ok file /\ Loader.objectKeys file = Err (loadError file)).
Proof.
  intros H. destruct file; cbn; auto;
    contradiction H; split; [reflexivity | discriminate | reflexivity | discriminate].
Qed.

(** Loading a directory of parsed files succeeds exactly when every file
    holds data of type object other than [null]; otherwise it throws for
    the first file that does not, a [TypeError] when that file holds
    [null] and the error ['Invalid script file'] for a number, a string or
    a boolean, whatever follows it.  The scripts of a directory are those
    of its files, in directory order. *)
Theorem loadScripts_outcome :
  (forall files,
      (exists entries, Loader.loadScripts files = Ok entries) <-> Forall loadable files) /\
  (forall before file after,
      Forall loadable before -> ~ loadable file ->
      Loader.loadScripts (before ++ file :: after)%list = Err (loadError file)) /\
  (forall files1 files2 entries1,
      Loader.loadScripts files1 = Ok entries1 ->
      Loader.loadScripts (files1 ++ files2)%list =
      match Loader.loadScripts files2 with
      | Ok entries2 => Ok (entries1 ++ entries2)%list
      | Err e => Err e
      | OutOfFuel => OutOfFuel
      end).
Proof.
  assert (Hok : forall files, Forall loadable files ->
                              exists entries, Loader.loadScripts files = Ok entries).
  { induction 1 as [| f files Hf _ [entries IH]]; [now exists [] |].
    destruct (loadable_step f Hf) as [H1 H2]. cbn [Loader.loadScripts].
    rewrite H1, H2, IH. eauto. }
  assert (Herr : forall before file after,
             Forall loadable before -> ~ loadable file ->
             Loader.loadScripts (before ++ file :: after)%list = Err (loadError file)).
  { intros before file after Hb Hf.
    induction Hb as [| f before Hl _ IH]; cbn [app Loader.loadScripts].
    - destruct (not_loadable_step file Hf) as [H1 | [H1 H2]].
      + now rewrite H1.
      + now rewrite H1, H2.
    - destruct (loadable_step f Hl) as [H1 H2]. now rewrite H1, H2, IH. }
  split; [| split; [exact Herr |]].
  - intros files. split; [| apply Hok].
    intros [entries H]. induction files as [| f files IH] in entries, H |- *;
      [constructor |].
    destruct (loadable_dec f) as [Hf | Hf].
    + constructor; [exact Hf |].
      destruct (loadable_step f Hf) as [H1 H2]. cbn [Loader.loadScripts] in H.
      rewrite H1, H2 in H.
      destruct (Loader.loadScripts files) as [more | |] eqn:E; try discriminate.
      eapply IH. reflexivity.
    + pose proof (Herr [] f files (Forall_nil _) Hf) as He. cbn [app] in He.
      rewrite He in H. discriminate.
  - intros files1. induction files1 as [| f files1 IH]; intros files2 entries1 H.
    + cbn in H. injection H as <-. cbn. now destruct (Loader.loadScripts files2).
    + cbn [app Loader.loadScripts] in H |- *.
      destruct (Loader.loadScriptFile f) as [script | |]; try discriminate.
      destruct (Loader.objectKeys script) as [keys | |]; try discriminate.
      destruct (Loader.loadScripts files1) as [more | |] eqn:E; try discriminate.
      injection H as <-. rewrite (IH files2 more eq_refl).
      destruct (Loader.loadScripts files2); try reflexivity.
      now rewrite app_assoc.
Qed.

(* ================================================================== *)
(** ** The plan renderer *)
(* ================================================================== *)

Lemma repeat_length (s : string) (n : nat) :
  String.length (JsString.repeat s n) = n * String.length s.
Proof.
  induction n as [| n IH]; [reflexivity |].
  cbn [JsString.repeat]. rewrite length_append, IH. lia.
Qed.

Lemma fold_max_ge {A} (len : A -> nat) (f : nat -> A -> nat) :
  (forall m x, f m x = Nat.max m (len x)) ->
  forall l acc,
    acc <= fold_left f l acc /\
    forall x, In x l -> len x <= fold_left f l acc.
Proof.
  intros Hf. induction l as [| a l IH]; intros acc; cbn [fold_left].
  - split; [lia | intros x []].
  - rewrite (Hf acc a). destruct (IH (Nat.max acc (len a))) as [H1 H2]. split; [lia |].
    intros x [<- | Hin]; [lia | now apply H2].
Qed.

Lemma fold_max_attained {A} (len : A -> nat) (f : nat -> A -> nat) :
  (forall m x, f m x = Nat.max m (len x)) ->
  forall l acc,
    fold_left f l acc = acc \/
    exists x, In x l /\ fold_left f l acc = len x.
Proof.
  intros Hf. induction l as [| a l IH]; intros acc; cbn [fold_left].
  - now left.
  - rewrite (Hf acc a). destruct (IH (Nat.max acc (len a))) as [H | (x & Hin & H)].
    + rewrite H. destruct (Nat.max_spec acc (len a)) as [[_ E] | [_ E]]; rewrite E.
      * right. exists a. split; [now left | reflexivity].
      * now left.
    + right. exists x. split; [now right | exact H].
Qed.

Lemma minWidth_step (max : nat) (step : PlanStep) :
  (let str := stepPlanPrefix step in
   if Nat.ltb max (String.length str) then String.length str else max)
  = Nat.max max (String.length (stepPlanPrefix step)).
Proof.
  cbv zeta. destruct (Nat.ltb max (String.length (stepPlanPrefix step))) eqn:E.
  - apply Nat.ltb_lt in E. lia.
  - apply Nat.ltb_ge in E. lia.
Qed.

Lemma planMinWidth_ge (steps : list PlanStep) (step : PlanStep) :
  In step steps -> String.length (stepPlanPrefix step) <= planMinWidth steps.
Proof.
  intros Hin. unfold planMinWidth.
  exact (proj2 (fold_max_ge (fun s => String.length (stepPlanPrefix s)) _
                            minWidth_step steps 0) step Hin).
Qed.

Lemma planMinWidth_attained (steps : list PlanStep) :
  steps <> [] ->
  exists step, In step steps /\ planMinWidth steps = String.length (stepPlanPrefix step).
Proof.
  intros Hne.
  destruct (fold_max_attained (fun s => String.length (stepPlanPrefix s)) _
                              minWidth_step steps 0) as [H | H]; [| exact H].
  change (planMinWidth steps = 0) in H.
  destruct steps as [| s steps']; [contradiction |].
  pose proof (planMinWidth_ge (s :: steps') s (or_introl eq_refl)) as Hs.
  rewrite H in Hs.
  assert (Hpos : 0 < String.length (stepPlanPrefix s)).
  { unfold stepPlanPrefix. cbn. lia. }
  lia.
Qed.

Lemma mapThrowing_total {A B} (f : A -> option B) (g : A -> B) (xs : list A) :
  (forall x, In x xs -> f x = Some (g x)) -> mapThrowing f xs = Some (map g xs).
Proof.
  induction xs as [| x xs IH]; intros H; [reflexivity |].
  cbn [mapThrowing map]. rewrite (H x (or_introl eq_refl)).
  rewrite IH; [reflexivity |]. intros y Hy. apply H. now right.
Qed.

(** [createPlan] never throws: the width it pads to is the length of the
    longest prefix, so no padding is negative.  It keeps the steps and
    their order, and every explanation is the prefix of its step, padded
    with spaces to that one width, then ["$ "] and the command: the dollar
    signs of all explanations stand in the same column. *)
Theorem createPlan_aligned (steps : list PlanStep) :
  exists plan,
    createPlan steps = Some plan /\
    map explained plan = steps /\
    Forall (fun entry =>
              exists pad,
                explanation entry =
                (stepPlanPrefix (explained entry) ++ JsString.repeat " " pad
                   ++ "$ " ++ step_command (explained entry))%string /\
                String.length (stepPlanPrefix (explained entry) ++ JsString.repeat " " pad)
                = planMinWidth steps)
           plan /\
    (steps <> [] ->
     exists step, In step steps /\
                  planMinWidth steps = String.length (stepPlanPrefix step)).
Proof.
  set (w := planMinWidth steps).
  set (g := fun step =>
              mkExplained step
                (stepPlanPrefix step
                   ++ JsString.repeat " " (w - String.length (stepPlanPrefix step))
                   ++ "$ " ++ step_command step)).
  assert (Hge : forall step, In step steps -> String.length (stepPlanPrefix step) <= w).
  { intros step Hin. now apply planMinWidth_ge. }
  exists (map g steps). split; [| split; [| split]].
  - unfold createPlan. fold w. apply mapThrowing_total.
    intros step Hin. unfold explainPlanStep. cbv zeta.
    specialize (Hge step Hin). apply Nat.ltb_ge in Hge. now rewrite Hge.
  - rewrite map_map. cbn. apply map_id.
  - apply Forall_forall. intros entry Hin.
    apply in_map_iff in Hin as (step & <- & Hin). cbn [explained explanation g].
    exists (w - String.length (stepPlanPrefix step)). split; [reflexivity |].
    rewrite length_append, repeat_length. cbn [String.length].
    specialize (Hge step Hin). lia.
  - apply planMinWidth_attained.
Qed.

Lemma units_length (s : string) : List.length (units s) = String.length s.
Proof.
  unfold units. rewrite length_map.
  induction s as [| c s IH]; cbn; [reflexivity | now rewrite IH].
Qed.

Lemma padEnd_length (s : string) (n : nat) :
  String.length (padEnd s n) = Nat.max (String.length s) n.
Proof. unfold padEnd. rewrite length_append, repeat_length. cbn. lia. Qed.

Lemma repeatText_length (t : Text) (n : nat) :
  List.length (repeatText t n) = n * List.length t.
Proof.
  induction n as [| n IH]; [reflexivity |].
  cbn [repeatText]. rewrite length_app, IH. lia.
Qed.

Lemma framedLine_length (w : nat) (line : string) :
  String.length line + 2 <= w -> List.length (framedLine w line) = w + 2.
Proof.
  intros H. unfold framedLine.
  rewrite !length_app, !units_length, padEnd_length. cbn. lia.
Qed.

(** The box of [prettyPrintable]: the three borders and the title, script,
    phase and command lines all have [boxWidth + 2] code units, and that
    width is at least 13; the warning line of a skipped step is longer
    than every one of them, by one code unit or more. *)
Theorem box_line_widths (title : string) (step : PlanStep) :
  let w := boxWidth title step in
  13 <= w /\
  List.length (topBorder w) = w + 2 /\
  List.length (framedLine w title) = w + 2 /\
  List.length (separatorLine w) = w + 2 /\
  List.length (framedLine w (scriptLine step)) = w + 2 /\
  List.length (framedLine w (phaseLine step)) = w + 2 /\
  List.length (framedLine w (commandLine step)) = w + 2 /\
  List.length (bottomBorder w) = w + 2 /\
  (step_skip step = false -> formattedWillSkipLine w step = []) /\
  (step_skip step = true ->
   List.length (formattedWillSkipLine w step)
   = Nat.max (w + 3) (String.length (willSkipLine step) + 6) + 1).
Proof.
  cbv zeta. unfold boxWidth.
  set (a := String.length (scriptLine step)).
  set (b := String.length (phaseLine step)).
  set (c := String.length (commandLine step)).
  set (d := String.length title).
  set (e := String.length (willSkipLine step)).
  assert (Ha : 11 <= a).
  { unfold a, scriptLine. rewrite !length_append, padEnd_length. cbn. lia. }
  repeat split.
  - lia.
  - unfold topBorder. rewrite !length_app, repeatText_length. cbn. lia.
  - apply framedLine_length. fold d. lia.
  - unfold separatorLine. rewrite !length_app, repeatText_length. cbn. lia.
  - apply framedLine_length. fold a. lia.
  - apply framedLine_length. fold b. lia.
  - apply framedLine_length. fold c. lia.
  - unfold bottomBorder. rewrite !length_app, repeatText_length. cbn. lia.
  - intros H. unfold formattedWillSkipLine. now rewrite H.
  - intros H. unfold formattedWillSkipLine. rewrite H.
    rewrite !length_app, !units_length, padEnd_length. fold e.
    clearbody a b c d e.
    cbn [List.length String.length vertical warningSign newline]. lia.
Qed.

(* ================================================================== *)
(** ** Running the plan *)
(* ================================================================== *)

Lemma executedCommands_app (l1 l2 : list Event) :
  executedCommands (l1 ++ l2)%list = (executedCommands l1 ++ executedCommands l2)%list.
Proof. unfold executedCommands. apply flat_map_app. Qed.

Lemma executedCommands_logEvent argv str lvl :
  executedCommands (logEvent argv str lvl) = [].
Proof. unfold logEvent. now destruct (negb (verbose argv)). Qed.

Lemma logEvent_only_logs argv str lvl :
  Forall (fun e => exists text, e = ConsoleLog text) (logEvent argv str lvl).
Proof.
  unfold logEvent. destruct (negb (verbose argv)); repeat constructor. eauto.
Qed.

Lemma logEvent_no_exit argv str lvl :
  Forall (fun e => isExit e = false) (logEvent argv str lvl).
Proof.
  unfold logEvent. destruct (negb (verbose argv)); repeat constructor.
Qed.

Lemma commandsToRun_cons (entry : PlanStepExplained) (rest : list PlanStepExplained) :
  commandsToRun (entry :: rest) =
  if step_skip (explained entry) then commandsToRun rest
  else step_command (explained entry) :: commandsToRun rest.
Proof.
  unfold commandsToRun. cbn [filter]. now destruct (step_skip (explained entry)).
Qed.

(** Running a plan.  In a dry run the process only writes to the console:
    it runs no command and does not exit.  Otherwise the commands handed
    to [execSync] are those of the steps not flagged for skipping, in plan
    order, up to and including the first that fails: a flagged step is
    never run, and after a failure no further command is run.  Either
    every such command has run and the process has not exited, or the
    process ends with the failed command, the report that names it and
    the exit with code 1. *)
Theorem runPlan_trace
        (argv : CLIArgs) (execSync : list string -> string -> bool) (title : string) :
  (forall ran plan,
      dry argv = true ->
      Forall (fun e => exists text, e = ConsoleLog text)
             (runPlan argv execSync title ran plan)) /\
  (forall ran plan,
      dry argv = false ->
      executedCommands (runPlan argv execSync title ran plan)
      = upToFirstFailure execSync ran (commandsToRun plan)) /\
  (forall ran plan,
      dry argv = false ->
      (Forall (fun e => isExit e = false) (runPlan argv execSync title ran plan) /\
       executedCommands (runPlan argv execSync title ran plan) = commandsToRun plan) \/
      (exists before failed,
          runPlan argv execSync title ran plan =
          (before ++ [ExecSync failed;
                      ConsoleError (units ("Error executing command: " ++ failed));
                      Exit 1])%list /\
          Forall (fun e => isExit e = false) before /\
          execSync (ran ++ executedCommands before)%list failed = false)).
Proof.
  split; [| split].
  - intros ran plan Hdry. revert ran.
    induction plan as [| entry rest IH]; intros ran; [constructor |].
    cbn [runPlan]. rewrite Hdry. cbn [negb].
    constructor; [eauto |].
    destruct (negb (step_skip (explained entry)));
      apply Forall_app; split; auto using logEvent_only_logs.
  - intros ran plan Hdry. revert ran.
    induction plan as [| entry rest IH]; intros ran; [reflexivity |].
    cbn [runPlan]. rewrite Hdry, commandsToRun_cons. cbn [negb].
    destruct (step_skip (explained entry)); cbn [negb].
    + change (executedCommands (ConsoleLog ?b :: ?l)) with (executedCommands l).
      now rewrite executedCommands_app, executedCommands_logEvent, IH.
    + cbn [upToFirstFailure].
      change (executedCommands
                (ConsoleLog (prettyPrintable title (explained entry))
                   :: ExecSync (step_command (explained entry)) :: ?l))
        with (step_command (explained entry) :: executedCommands l).
      f_equal. destruct (execSync ran (step_command (explained entry))).
      * apply IH.
      * reflexivity.
  - intros ran plan Hdry. revert ran.
    induction plan as [| entry rest IH]; intros ran.
    + left. split; [constructor | reflexivity].
    + cbn [runPlan]. rewrite Hdry, commandsToRun_cons. cbn [negb].
      destruct (step_skip (explained entry)); cbn [negb].
      * destruct (IH ran) as [[Hn He] | (before & failed & Ht & Hb & Hf)].
        -- left. split.
           ++ constructor; [reflexivity |]. apply Forall_app.
              split; [apply logEvent_no_exit | exact Hn].
           ++ change (executedCommands (ConsoleLog ?b :: ?l)) with (executedCommands l).
              now rewrite executedCommands_app, executedCommands_logEvent, He.
        -- right.
           exists (ConsoleLog (prettyPrintable title (explained entry))
                     :: logEvent argv ("Skipping " ++ step_command (explained entry)) 0
                     ++ before)%list, failed.
           split; [| split].
           ++ rewrite Ht. cbn [app]. now rewrite app_assoc.
           ++ constructor; [reflexivity |]. apply Forall_app.
              split; [apply logEvent_no_exit | exact Hb].
           ++ change (executedCommands (ConsoleLog ?b :: ?l)) with (executedCommands l).
              now rewrite executedCommands_app, executedCommands_logEvent.
      * destruct (execSync ran (step_command (explained entry))) eqn:Eok.
        -- destruct (IH (ran ++ [step_command (explained entry)])%list)
             as [[Hn He] | (before & failed & Ht & Hb & Hf)].
           ++ left. split; [repeat constructor; exact Hn |].
              change (executedCommands
                        (ConsoleLog (prettyPrintable title (explained entry))
                           :: ExecSync (step_command (explained entry)) :: ?l))
                with (step_command (explained entry) :: executedCommands l).
              now rewrite He.
           ++ right.
              exists (ConsoleLog (prettyPrintable title (explained entry))
                        :: ExecSync (step_command (explained entry)) :: before), failed.
              split; [| split].
              ** now rewrite Ht.
              ** repeat constructor. exact Hb.
              ** change (executedCommands
                           (ConsoleLog (prettyPrintable title (explained entry))
                              :: ExecSync (step_command (explained entry)) :: before))
                   with (step_command (explained entry) :: executedCommands before).
                 now rewrite <- app_assoc in Hf.
        -- right.
           exists [ConsoleLog (prettyPrintable title (explained entry))],
                  (step_command (explained entry)).
           split; [reflexivity | split; [repeat constructor |]].
           cbn. now rewrite app_nil_r.
Qed.
